(** * Visit-logging web service: a shallow embedding of [app.js]

    The service is a handful of Express handlers over an ORM model
    ([Visit]), an outbound geolocation call ([axios.get]) and a start-up
    sequence.  The handlers are embedded as functions in a small
    state monad that threads the database table and the list of
    observable effects (console output, outbound HTTP calls, inserts).
    The outcome of every call that leaves the process (database, secret
    store, geolocation provider, clock) is an input of the model, held in
    [World].

    JavaScript values are modelled as far as the handlers look at them:
    strings are sequences of code units below 256; a Number is a double,
    the one nearest to the JSON numeral or to the integer that [parseInt]
    reads, and the arithmetic on it rounds likewise; [parseInt], [||],
    [.toString()] and [toISOString] follow ECMA-262. *)

From Stdlib Require Import ZArith List Bool Lia.
From Stdlib Require Import Strings.String Strings.Ascii.
From Stdlib Require Import QArith Qround.
From Stdlib Require Import Sorting.Mergesort Sorting.Sorted Sorting.Permutation.
Import ListNotations.

Open Scope bool_scope.
Open Scope string_scope.
Open Scope Z_scope.

(* ================================================================= *)
(** ** JavaScript values *)

Module JS.

(** The decimal fraction [mant / 10 ^ scale] a JSON numeral writes.  The
    Number [JSON.parse] makes of it is the double nearest to it, given by
    [double_of_number] below. *)
Record number := Dec { mant : Z; scale : nat }.

Definition of_Z (z : Z) : number := Dec z 0.

(** Values that reach the handlers: results of [JSON.parse] (provider
    body), of the query-string parser, and the handlers' own literals.
    An object is the list of its own properties. *)
#[warnings="-register-all"]
Inductive value :=
| Undefined
| Null
| Bool (b : bool)
| Num (n : number)
| Str (s : string)
| Arr (items : list value)
| Obj (props : list (string * value)).

(** *** Decimal rendering *)

Definition digit_char (d : Z) : ascii := ascii_of_nat (48 + Z.to_nat d).

(** The [k] low-order decimal digits of [n], most significant first. *)
Fixpoint digits (k : nat) (n : Z) : string :=
  match k with
  | O => ""
  | S k' => digits k' (n / 10) ++ String (digit_char (n mod 10)) ""
  end.

(** Number of decimal digits of a non-negative integer (1 for 0). *)
Fixpoint ndigits_fuel (fuel : nat) (n : Z) : nat :=
  match fuel with
  | O => 1%nat
  | S f => if n <? 10 then 1%nat else S (ndigits_fuel f (n / 10))
  end.

Definition ndigits (n : Z) : nat := ndigits_fuel (S (Z.to_nat (Z.log2 n))) n.

Definition nat_string (n : Z) : string := digits (ndigits n) n.

(** *** Doubles *)

(** The magnitude of a Number: zero, [m * 2 ^ e] with [m] below 2^53
    (at least 2^52 unless [e] is the least exponent, -1074), or
    infinity. *)
Inductive double :=
| Zero
| Finite (m e : Z)
| Infinite.

Definition double_eqb (a b : double) : bool :=
  match a, b with
  | Zero, Zero | Infinite, Infinite => true
  | Finite m e, Finite m' e' => (m =? m') && (e =? e')
  | _, _ => false
  end.

(** The integer nearest to [p / q], the even one of two equally near. *)
Definition round_half_even (p q : Z) : Z :=
  let f := p / q in
  let r := p mod q in
  if 2 * r <? q then f
  else if q <? 2 * r then f + 1
  else if Z.even f then f else f + 1.

(** [p / q] times [b ^ (- e)], as a fraction. *)
Definition shift (b p q e : Z) : Z * Z :=
  if 0 <=? e then (p, q * b ^ e) else (p * b ^ (- e), q).

(** [floor (log2 (p / q))] for positive [p], [q]. *)
Definition binade (p q : Z) : Z :=
  let g := Z.log2 p - Z.log2 q in
  let (p', q') := shift 2 p q g in
  if q' <=? p' then g else g - 1.

(** The double nearest to [p / q] (round to nearest, ties to even), for
    [0 <= p] and [0 < q]. *)
Definition to_double (p q : Z) : double :=
  if p =? 0 then Zero
  else
    let e := Z.max (binade p q - 52) (-1074) in
    let (p', q') := shift 2 p q e in
    let m := round_half_even p' q' in
    if m =? 0 then Zero
    else
      let (m, e) := if m =? 2 ^ 53 then (2 ^ 52, e + 1) else (m, e) in
      if 971 <? e then Infinite else Finite m e.

(** The double nearest to [s * 10 ^ ex]. *)
Definition decimal_to_double (s ex : Z) : double :=
  if 0 <=? ex then to_double (s * 10 ^ ex) 1 else to_double s (10 ^ (- ex)).

Definition double_of_number (n : number) : double :=
  decimal_to_double (Z.abs (mant n)) (- Z.of_nat (scale n)).

(** The value of a finite double as a fraction. *)
Definition fraction (m e : Z) : Z * Z :=
  if 0 <=? e then (m * 2 ^ e, 1) else (m, 2 ^ (- e)).

(** [Math.ceil(x)] of a Number of magnitude [x] that is not negative. *)
Definition ceiling (x : double) : option Z :=
  match x with
  | Zero => Some 0
  | Finite m e => Some (if 0 <=? e then m * 2 ^ e else - ((- m) / 2 ^ (- e)))
  | Infinite => None
  end.

(** *** Number::toString *)

(** [10 ^ c <= p / q] *)
Definition pow10_le (c p q : Z) : bool :=
  let (p', q') := shift 10 p q c in q' <=? p'.

(** The least [n >= c] with [p / q < 10 ^ n], looking [fuel] steps up. *)
Fixpoint exponent10_from (fuel : nat) (c p q : Z) : Z :=
  match fuel with
  | O => c
  | S f => if pow10_le c p q then exponent10_from f (c + 1) p q else c
  end.

(** The [n] with [10 ^ (n - 1) <= p / q < 10 ^ n]. *)
Definition exponent10 (p q : Z) : Z :=
  exponent10_from 8 (binade p q * 30103 / 100000 - 1) p q.

(** The integer [s] of [k] digits for which [s * 10 ^ (n - k)] is the
    double [Finite m e], when there is one; of two, the nearer. *)
Definition candidate (m e n : Z) (k : Z) : option Z :=
  let ex := n - k in
  let (p, q) := fraction m e in
  let (p', q') := shift 10 p q ex in
  let lo := p' / q' in
  let r := p' mod q' in
  let ok s := double_eqb (decimal_to_double s ex) (Finite m e) in
  match ok lo, ok (lo + 1) with
  | true, true =>
      if 2 * r <? q' then Some lo
      else if q' <? 2 * r then Some (lo + 1)
      else if Z.even lo then Some lo else Some (lo + 1)
  | true, false => Some lo
  | false, true => Some (lo + 1)
  | false, false => None
  end.

(** The shortest such integer: [k] from 1 upwards. *)
Fixpoint shortest_from (fuel : nat) (m e n k : Z) : Z * Z :=
  match fuel with
  | O => (m, e)
  | S f =>
      match candidate m e n k with
      | Some s => (s, n - k)
      | None => shortest_from f m e n (k + 1)
      end
  end.

(** Drop trailing zeros: [s * 10 ^ ex] stays the same. *)
Fixpoint strip_zeros (fuel : nat) (s ex : Z) : Z * Z :=
  match fuel with
  | O => (s, ex)
  | S f => if s mod 10 =? 0 then strip_zeros f (s / 10) (ex + 1) else (s, ex)
  end.

(** The digits [s] and the exponent [n] of Number::toString: the double
    is [s * 10 ^ (n - k)] with [k] the number of digits of [s], as small
    as possible. *)
Definition shortest (m e : Z) : Z * Z :=
  let (p, q) := fraction m e in
  let n := exponent10 p q in
  let (s, ex) := shortest_from 17 m e n 1 in
  let (s, ex) := strip_zeros 20 s ex in
  (s, ex + Z.of_nat (ndigits s)).

Fixpoint zeros (k : nat) : string :=
  match k with
  | O => ""
  | S k' => String "0" (zeros k')
  end.

(** The text of a positive finite double from its digits and exponent. *)
Definition format (s n : Z) : string :=
  let k := Z.of_nat (ndigits s) in
  let d := nat_string s in
  if (k <=? n) && (n <=? 21) then d ++ zeros (Z.to_nat (n - k))
  else if (0 <? n) && (n <=? 21) then
    substring 0 (Z.to_nat n) d ++ "." ++ substring (Z.to_nat n) (Z.to_nat (k - n)) d
  else if (-6 <? n) && (n <=? 0) then "0." ++ zeros (Z.to_nat (- n)) ++ d
  else
    let exponent := (if 0 <=? n - 1 then "+" else "-") ++ nat_string (Z.abs (n - 1)) in
    if k =? 1 then d ++ "e" ++ exponent
    else substring 0 1 d ++ "." ++ substring 1 (Z.to_nat (k - 1)) d ++ "e" ++ exponent.

Definition double_toString (negative : bool) (x : double) : string :=
  match x with
  | Zero => "0"
  | Infinite => if negative then "-Infinity" else "Infinity"
  | Finite m e =>
      let (s, n) := shortest m e in
      (if negative then "-" else "") ++ format s n
  end.

Definition number_toString (n : number) : string :=
  double_toString (mant n <? 0) (double_of_number n).

(** *** ToBoolean: the operand test of [||] and [!] *)

Definition truthy (v : value) : bool :=
  match v with
  | Undefined | Null => false
  | Bool b => b
  | Num n => negb (double_eqb (double_of_number n) Zero)
  | Str s => negb (s =? "")%string
  | Arr _ | Obj _ => true
  end.

(** [a || b] *)
Definition or_else (a b : value) : value := if truthy a then a else b.

(** *** Property lookup *)

Fixpoint own_property (props : list (string * value)) (k : string) : option value :=
  match props with
  | [] => None
  | (k', v) :: rest => if (k' =? k)%string then Some v else own_property rest k
  end.

(** [v.k] for a key [k] that no prototype defines ([city], [latitude],
    ...): [None] is the TypeError of reading a property of [null] or
    [undefined]; a primitive or an array has no such property. *)
Definition get (v : value) (k : string) : option value :=
  match v with
  | Undefined | Null => None
  | Obj props =>
      match own_property props k with
      | Some x => Some x
      | None => Some Undefined
      end
  | _ => Some Undefined
  end.

(** *** ToString *)

(** The abstract operation ToString; [None] is a thrown TypeError.  An
    object parsed from text cannot hold a function, so an own property
    named [toString] shadows [Object.prototype.toString] with something
    that cannot be called, and the conversion throws.  An array joins its
    elements with commas, [null] and [undefined] elements being empty. *)
Fixpoint ToString (v : value) : option string :=
  match v with
  | Undefined => Some "undefined"
  | Null => Some "null"
  | Bool true => Some "true"
  | Bool false => Some "false"
  | Num n => Some (number_toString n)
  | Str s => Some s
  | Arr items =>
      (fix join (l : list value) : option string :=
         match l with
         | [] => Some ""
         | x :: rest =>
             let elem :=
               match x with
               | Undefined | Null => Some ""
               | _ => ToString x
               end in
             match elem with
             | None => None
             | Some s =>
                 match rest with
                 | [] => Some s
                 | _ =>
                     match join rest with
                     | None => None
                     | Some t => Some (s ++ "," ++ t)
                     end
                 end
             end
         end) items
  | Obj props =>
      match own_property props "toString" with
      | Some _ => None
      | None => Some "[object Object]"
      end
  end.

(** The method call [v.toString()]: as ToString, except that [null] and
    [undefined] have no properties at all. *)
Definition toString_method (v : value) : option string :=
  match v with
  | Undefined | Null => None
  | _ => ToString v
  end.

(** *** parseInt *)

(** StrWhiteSpaceChar, restricted to code units below 256. *)
Definition is_whitespace (c : ascii) : bool :=
  let n := nat_of_ascii c in
  ((9 <=? n) && (n <=? 13) || (n =? 32) || (n =? 160))%nat.

Fixpoint trim_start (s : string) : string :=
  match s with
  | String c rest => if is_whitespace c then trim_start rest else s
  | EmptyString => s
  end.

(** Value of [c] as a digit in radix [r] (10 or 16). *)
Definition digit_value (r : Z) (c : ascii) : option Z :=
  let n := Z.of_nat (nat_of_ascii c) in
  if (48 <=? n) && (n <=? 57) then Some (n - 48)
  else if (r =? 16) && (97 <=? n) && (n <=? 102) then Some (n - 87)
  else if (r =? 16) && (65 <=? n) && (n <=? 70) then Some (n - 55)
  else None.

(** Longest prefix of radix-[r] digits, folded into [acc]; [seen] records
    whether the prefix is non-empty. *)
Fixpoint parse_digits (r : Z) (s : string) (seen : bool) (acc : Z) : option Z :=
  match s with
  | EmptyString => if seen then Some acc else None
  | String c rest =>
      match digit_value r c with
      | Some d => parse_digits r rest true (acc * r + d)
      | None => if seen then Some acc else None
      end
  end.

(** A Number that [parseInt] and the arithmetic on its results can
    yield: NaN, an infinity, or an integer that a double holds. *)
Inductive integral :=
| NaN
| Int (z : Z)
| PlusInfinity
| MinusInfinity.

(** The Number for the mathematical integer [z]: the double nearest to
    it, which is [z] itself up to 2^53. *)
Definition integral_of_Z (z : Z) : integral :=
  match to_double (Z.abs z) 1 with
  | Zero => Int 0
  | Finite m e => Int (Z.sgn z * (if 0 <=? e then m * 2 ^ e else m / 2 ^ (- e)))
  | Infinite => if z <? 0 then MinusInfinity else PlusInfinity
  end.

(** [parseInt(s)] on a string, radix argument absent. *)
Definition parseInt_string (s : string) : integral :=
  let s := trim_start s in
  let sign :=
    match s with
    | String c _ => if (c =? "-")%char then -1 else 1
    | EmptyString => 1
    end in
  let s :=
    match s with
    | String c rest => if (c =? "+")%char || (c =? "-")%char then rest else s
    | EmptyString => s
    end in
  let (radix, s) :=
    match s with
    | String c0 (String c1 rest) =>
        if (c0 =? "0")%char && ((c1 =? "x")%char || (c1 =? "X")%char)
        then (16, rest) else (10, s)
    | _ => (10, s)
    end in
  match parse_digits radix s false 0 with
  | None => NaN
  | Some n => integral_of_Z (sign * n)
  end.

(** Outcome of an expression that may throw. *)
Inductive completion (A : Type) :=
| Normal (a : A)
| Throw (message : string).
Arguments Normal {A} a.
Arguments Throw {A} message.

(** [parseInt(v)]: the argument is converted with ToString first. *)
Definition parseInt (v : value) : completion integral :=
  match ToString v with
  | None => Throw "Cannot convert object to primitive value"
  | Some s => Normal (parseInt_string s)
  end.

(** [isNaN(x)] *)
Definition isNaN (x : integral) : bool :=
  match x with NaN => true | _ => false end.

(** [x - y] *)
Definition subtract (x y : integral) : integral :=
  match x, y with
  | NaN, _ | _, NaN => NaN
  | Int a, Int b => integral_of_Z (a - b)
  | PlusInfinity, PlusInfinity | MinusInfinity, MinusInfinity => NaN
  | PlusInfinity, _ | _, MinusInfinity => PlusInfinity
  | MinusInfinity, _ | _, PlusInfinity => MinusInfinity
  end.

(** The sign of a Number that is not NaN: -1, 0 or 1. *)
Definition sign_of (x : integral) : Z :=
  match x with
  | Int a => Z.sgn a
  | PlusInfinity => 1
  | MinusInfinity => -1
  | NaN => 0
  end.

(** [x * y] *)
Definition multiply (x y : integral) : integral :=
  match x, y with
  | NaN, _ | _, NaN => NaN
  | Int a, Int b => integral_of_Z (a * b)
  | _, _ =>
      match sign_of x * sign_of y with
      | 0 => NaN
      | Zpos _ => PlusInfinity
      | Zneg _ => MinusInfinity
      end
  end.

End JS.

(* ================================================================= *)
(** ** Date.prototype.toISOString *)

Module Date.

Definition msPerDay : Z := 86400000.

(** Year of the 400-year era (counted from 1 March, January and
    February belonging to the year before), month 1..12 and day 1..31 of
    the day [doe] of the era, [0 <= doe < 146097]. *)
Definition civil_of_doe (doe : Z) : Z * Z * Z :=
  let yoe := (doe - doe / 1460 + doe / 36524 - doe / 146096) / 365 in
  let doy := doe - (365 * yoe + yoe / 4 - yoe / 100) in
  let mp := (5 * doy + 2) / 153 in
  let d := doy - (153 * mp + 2) / 5 + 1 in
  let m := if mp <? 10 then mp + 3 else mp - 9 in
  (yoe + (if m <=? 2 then 1 else 0), m, d).

(** Proleptic Gregorian date of a day number counted from 1970-01-01:
    YearFromTime, MonthFromTime + 1 and DateFromTime. *)
Definition civil_from_days (z : Z) : Z * Z * Z :=
  let z := z + 719468 in
  let '(y, m, d) := civil_of_doe (z mod 146097) in
  (y + 400 * (z / 146097), m, d).

(** MakeDay: the day number of a date. *)
Definition days_from_civil (y m d : Z) : Z :=
  let y := if m <=? 2 then y - 1 else y in
  let yoe := y mod 400 in
  let mp := if 2 <? m then m - 3 else m + 9 in
  let doy := (153 * mp + 2) / 5 + d - 1 in
  (y / 400) * 146097 + (yoe * 365 + yoe / 4 - yoe / 100 + doy) - 719468.

Definition is_leap (y : Z) : bool :=
  (y mod 4 =? 0) && (negb (y mod 100 =? 0) || (y mod 400 =? 0)).

Definition days_in_month (y m : Z) : Z :=
  if m =? 2 then (if is_leap y then 29 else 28)
  else if (m =? 4) || (m =? 6) || (m =? 9) || (m =? 11) then 30
  else 31.

(** [YYYY-MM-DDTHH:mm:ss.sssZ] for a time value [t] in milliseconds since
    the epoch whose year lies in 0..9999. *)
Definition toISOString (t : Z) : string :=
  let '(y, m, d) := civil_from_days (t / msPerDay) in
  let ms := t mod msPerDay in
  JS.digits 4 y ++ "-" ++ JS.digits 2 m ++ "-" ++ JS.digits 2 d ++ "T" ++
  JS.digits 2 (ms / 3600000) ++ ":" ++ JS.digits 2 (ms / 60000 mod 60) ++ ":" ++
  JS.digits 2 (ms / 1000 mod 60) ++ "." ++ JS.digits 3 (ms mod 1000) ++ "Z".

(** *** Reading the format back: [Date.parse] on the same format *)

(** Exactly [k] decimal digits, folded into [acc]. *)
Fixpoint read_digits (k : nat) (s : string) (acc : Z) : option (Z * string) :=
  match k with
  | O => Some (acc, s)
  | S k' =>
      match s with
      | String c rest =>
          match JS.digit_value 10 c with
          | Some d => read_digits k' rest (acc * 10 + d)
          | None => None
          end
      | EmptyString => None
      end
  end.

Definition expect (c : ascii) (s : string) : option string :=
  match s with
  | String c' rest => if Ascii.eqb c c' then Some rest else None
  | EmptyString => None
  end.

Definition and_then {A B} (o : option A) (k : A -> option B) : option B :=
  match o with Some a => k a | None => None end.

Notation "' p <-? o ;; k" := (and_then o (fun x => match x with p => k end))
  (at level 61, p pattern, o at next level, right associativity).
Notation "x <-? o ;; k" := (and_then o (fun x => k))
  (at level 61, o at next level, right associativity).

(** The time value written as [YYYY-MM-DDTHH:mm:ss.sssZ], when the text
    has that shape and names a date and a time of day that exist. *)
Definition parse (s : string) : option Z :=
  '(y, s) <-? read_digits 4 s 0 ;;
  s <-? expect "-" s ;;
  '(m, s) <-? read_digits 2 s 0 ;;
  s <-? expect "-" s ;;
  '(d, s) <-? read_digits 2 s 0 ;;
  s <-? expect "T" s ;;
  '(h, s) <-? read_digits 2 s 0 ;;
  s <-? expect ":" s ;;
  '(mi, s) <-? read_digits 2 s 0 ;;
  s <-? expect ":" s ;;
  '(sec, s) <-? read_digits 2 s 0 ;;
  s <-? expect "." s ;;
  '(ms, s) <-? read_digits 3 s 0 ;;
  s <-? expect "Z" s ;;
  if (s =? "")%string && (1 <=? m) && (m <=? 12) && (1 <=? d)
     && (d <=? days_in_month y m) && (h <=? 23) && (mi <=? 59) && (sec <=? 59)
  then Some (days_from_civil y m d * msPerDay
             + h * 3600000 + mi * 60000 + sec * 1000 + ms)
  else None.

End Date.

(* ================================================================= *)
(** ** The application *)

Module App.
Import JS.

(** *** Model definitions *)

(** Column types used by the two model definitions. *)
Inductive DataType := STRING | TEXT | FLOAT | DATE.

Definition ModelDefinition := list (string * DataType).

Fixpoint attribute_type (m : ModelDefinition) (name : string) : option DataType :=
  match m with
  | [] => None
  | (n, t) :: rest => if (n =? name)%string then Some t else attribute_type rest name
  end.

(** [sequelize.define('Visit', {...})] in app.js: the model the handlers
    use. *)
Definition Visit_define : ModelDefinition :=
  [ ("ip", STRING); ("user_agent", TEXT); ("city", STRING);
    ("region", STRING); ("country", STRING); ("latitude", STRING);
    ("longitude", STRING); ("visited_at", DATE) ].

(** [Visit.init({...})] in models/visit.js. *)
Definition Visit_init : ModelDefinition :=
  [ ("ip", STRING); ("user_agent", TEXT); ("city", STRING);
    ("region", STRING); ("country", STRING); ("latitude", FLOAT);
    ("longitude", FLOAT); ("visited_at", DATE) ].

(** *** Rows, requests, responses *)

(** The object handed to [Visit.create]. *)
Record VisitAttrs := {
  ip : value;
  user_agent : value;
  city : value;
  region : value;
  country : value;
  latitude : value;
  longitude : value
}.

(** A row of the table: the attributes, the key, and [visited_at]
    (milliseconds since the epoch). *)
Record Visit := {
  id : Z;
  attrs : VisitAttrs;
  visited_at : Z
}.

Record LocationData := {
  loc_city : value;
  loc_region : value;
  loc_country : value;
  loc_latitude : value;
  loc_longitude : value
}.

(** What the handlers read of a request: two headers, the socket address
    and the two query parameters ([None]: absent). *)
Record Request := {
  x_forwarded_for : option string;
  remoteAddress : option string;
  user_agent_header : option string;
  query_page : option value;
  query_limit : option value
}.

Inductive Body :=
| ErrorBody (error : string)
| HealthBody (status database timestamp : string)
| ClientInfoBody (ip userAgent : string) (locationData : LocationData)
| LogsBody (totalRecords currentPage totalPages : Z) (logs : list Visit).

Record Response := { status : Z; body : Body }.

(** [res.status(c).json(b)]; [res.json(b)] is [json 200 b]. *)
Definition json (c : Z) (b : Body) : Response := {| status := c; body := b |}.

(** What becomes of a request: a response is sent, or the async handler
    rejects with nothing sent. *)
Inductive Outcome :=
| Sent (r : Response)
| Rejected (message : string).

(** *** The world outside the process *)

(** What becomes of [app.listen(port, ...)]: the port is bound; or the
    call itself throws, the port being no valid port number; or the call
    returns and the server emits an error afterwards (the port is in
    use, or may not be bound), which nothing handles. *)
Inductive Listen :=
| Bound
| BadPort (message : string)
| Unavailable (message : string).

(** Results of the calls that leave the process.  A thrown error carries
    its [message]. *)
Record World := {
  now : Z;
  NODE_ENV : option string;
  PORT : option string;
  DATABASE_URL : option string;
  getSecret : string -> completion string;
  new_Sequelize : option string -> completion unit;
  authenticate : completion unit;
  sync : completion unit;
  create : VisitAttrs -> completion unit;
  findAndCountAll : completion unit;
  close : completion unit;
  axios_get : string -> completion value;
  app_listen : string -> Listen
}.

(** The same world with one outside call replaced. *)
Definition with_create (w : World) (c : VisitAttrs -> completion unit) : World :=
  {| now := now w; NODE_ENV := NODE_ENV w; PORT := PORT w;
     DATABASE_URL := DATABASE_URL w; getSecret := getSecret w;
     new_Sequelize := new_Sequelize w; authenticate := authenticate w;
     sync := sync w; create := c; findAndCountAll := findAndCountAll w;
     close := close w; axios_get := axios_get w;
     app_listen := app_listen w |}.

Definition with_axios (w : World) (g : string -> completion value) : World :=
  {| now := now w; NODE_ENV := NODE_ENV w; PORT := PORT w;
     DATABASE_URL := DATABASE_URL w; getSecret := getSecret w;
     new_Sequelize := new_Sequelize w; authenticate := authenticate w;
     sync := sync w; create := create w; findAndCountAll := findAndCountAll w;
     close := close w; axios_get := g; app_listen := app_listen w |}.

Definition with_getSecret (w : World) (g : string -> completion string) : World :=
  {| now := now w; NODE_ENV := NODE_ENV w; PORT := PORT w;
     DATABASE_URL := DATABASE_URL w; getSecret := g;
     new_Sequelize := new_Sequelize w; authenticate := authenticate w;
     sync := sync w; create := create w; findAndCountAll := findAndCountAll w;
     close := close w; axios_get := axios_get w;
     app_listen := app_listen w |}.

Definition with_authenticate (w : World) (a : completion unit) : World :=
  {| now := now w; NODE_ENV := NODE_ENV w; PORT := PORT w;
     DATABASE_URL := DATABASE_URL w; getSecret := getSecret w;
     new_Sequelize := new_Sequelize w; authenticate := a;
     sync := sync w; create := create w; findAndCountAll := findAndCountAll w;
     close := close w; axios_get := axios_get w;
     app_listen := app_listen w |}.

(** *** Observable effects and process state *)

Inductive Effect :=
| ConsoleLog (args : list string)
| ConsoleError (args : list string)
| HttpGet (url : string) (timeout : Z)
| Insert (row : Visit).

Record State := {
  table : list Visit;
  effects : list Effect;
  routes : list string;
  listening : option string;
  exit_code : option Z
}.

Definition initial (rows : list Visit) : State :=
  {| table := rows; effects := []; routes := [];
     listening := None; exit_code := None |}.

Definition M (A : Type) : Type := State -> A * State.

Definition ret {A} (a : A) : M A := fun st => (a, st).

Definition bind {A B} (m : M A) (k : A -> M B) : M B :=
  fun st => let (a, st') := m st in k a st'.

Notation "x <- m ;; k" := (bind m (fun x => k))
  (at level 61, m at next level, right associativity).
Notation "m ;; k" := (bind m (fun _ => k))
  (at level 61, right associativity).

Definition emit (e : Effect) : M unit :=
  fun st =>
    (tt, {| table := table st; effects := effects st ++ [e];
            routes := routes st; listening := listening st;
            exit_code := exit_code st |}).

Definition console_log (args : list string) : M unit := emit (ConsoleLog args).
Definition console_error (args : list string) : M unit := emit (ConsoleError args).

(** [try { m } catch (error) { handler(error.message) }] *)
Definition try_catch {A} (m : M (completion A)) (handler : string -> M A) : M A :=
  r <- m ;;
  match r with
  | Normal a => ret a
  | Throw message => handler message
  end.

(** Sequencing inside a [try] block: a throw skips the rest. *)
Definition bind_try {A B} (m : M (completion A)) (k : A -> M (completion B))
  : M (completion B) :=
  r <- m ;;
  match r with
  | Normal a => k a
  | Throw message => ret (Throw message)
  end.

Notation "x <-! m ;; k" := (bind_try m (fun x => k))
  (at level 61, m at next level, right associativity).

Definition lift {A} (m : M A) : M (completion A) := a <- m ;; ret (Normal a).

(** *** The Visit store *)

(** [visited_at] descending. *)
Module RecentFirst <: Orders.TotalLeBool.
Definition t := Visit.
Definition leb (a b : Visit) : bool := visited_at b <=? visited_at a.
Lemma leb_total : forall a b, leb a b = true \/ leb b a = true.
Proof.
  intros a b. unfold leb.
  destruct (Z.leb_spec (visited_at b) (visited_at a)); [now left|].
  right. apply Z.leb_le. lia.
Qed.
End RecentFirst.

Module RecentSort := Mergesort.Sort RecentFirst.

(** What a STRING or TEXT column keeps of the value handed to it: a
    string as it is, a number or a boolean as its text, [null] for
    [null] and [undefined]; [None] for an array or an object, which
    Sequelize's validation refuses. *)
Definition column_text (v : value) : option value :=
  match v with
  | Str s => Some (Str s)
  | Num n => Some (Str (number_toString n))
  | Bool true => Some (Str "true")
  | Bool false => Some (Str "false")
  | Undefined | Null => Some Null
  | Arr _ | Obj _ => None
  end.

(** The validation messages for the attributes, in the order of the
    model definition, joined as [error.message] joins them. *)
Fixpoint string_violations (fields : list (string * value)) : list string :=
  match fields with
  | [] => []
  | (name, v) :: rest =>
      match column_text v with
      | Some _ => string_violations rest
      | None =>
          ("string violation: " ++ name ++ " cannot be an array or an object")
            :: string_violations rest
      end
  end.

Definition newline : string := String (ascii_of_nat 10) "".

Definition the_text (v : value) : value :=
  match column_text v with
  | Some t => t
  | None => Null
  end.

(** The row [Visit.create] writes for the attributes [a]: every column
    of the model is STRING or TEXT. *)
Definition persisted (a : VisitAttrs) : completion VisitAttrs :=
  match string_violations
          [ ("ip", ip a); ("user_agent", user_agent a); ("city", city a);
            ("region", region a); ("country", country a);
            ("latitude", latitude a); ("longitude", longitude a) ] with
  | [] =>
      Normal {| ip := the_text (ip a); user_agent := the_text (user_agent a);
                city := the_text (city a); region := the_text (region a);
                country := the_text (country a);
                latitude := the_text (latitude a);
                longitude := the_text (longitude a) |}
  | violations => Throw (String.concat ("," ++ newline) violations)
  end.

(** [Visit.create(attrs)]: the attributes are validated against the
    column types, then inserted.  On success one row is appended, holding
    the text of each attribute, keyed by the next serial number and
    stamped with the current time ([defaultValue: Sequelize.NOW]); on
    failure nothing is stored. *)
Definition Visit_create (w : World) (a : VisitAttrs) : M (completion unit) :=
  match persisted a with
  | Throw message => ret (Throw message)
  | Normal columns =>
      match create w a with
      | Normal _ =>
          fun st =>
            let row := {| id := Z.of_nat (List.length (table st)) + 1;
                          attrs := columns; visited_at := now w |} in
            (Normal tt,
             {| table := table st ++ [row];
                effects := effects st ++ [Insert row];
                routes := routes st; listening := listening st;
                exit_code := exit_code st |})
      | Throw message => ret (Throw message)
      end
  end.

(** PostgreSQL takes [LIMIT] and [OFFSET] as [bigint] and refuses a
    negative one; Sequelize writes the Number it is given into the query,
    and an infinity written there names no row count. *)
Definition bigint_max : Z := 2 ^ 63 - 1.

Definition row_count (x : integral) : option Z :=
  match x with
  | Int v => if (0 <=? v) && (v <=? bigint_max) then Some v else None
  | _ => None
  end.

(** The text of the error the database answers such a query with. *)
Definition query_error : string := "the database rejects the query".

(** [Visit.findAndCountAll({offset, limit, order: [['visited_at', 'DESC']]})]:
    the number of rows of the table and the rows
    [ORDER BY visited_at DESC LIMIT limit OFFSET offset].  Rows with the
    same [visited_at] come in the order the merge sort leaves them; the
    database promises none. *)
Definition Visit_findAndCountAll (w : World) (offset limit : integral)
  : M (completion (Z * list Visit)) :=
  match findAndCountAll w with
  | Normal _ =>
      match row_count offset, row_count limit with
      | Some offset, Some limit =>
          fun st =>
            let sorted := RecentSort.sort (table st) in
            (Normal (Z.of_nat (List.length (table st)),
                     firstn (Z.to_nat limit) (skipn (Z.to_nat offset) sorted)), st)
      | _, _ => ret (Throw query_error)
      end
  | Throw message => ret (Throw message)
  end.

(** [Math.ceil(count / limitNum)], as the ceiling of the exact quotient.
    The code takes the ceiling of the quotient rounded to a double, which
    is the same integer for a count up to 2^53 and a limit from 1 to 100
    (lemma [Math_ceil_div_rounded] below). *)
Definition Math_ceil_div (count limitNum : Z) : Z :=
  Qceiling (inject_Z count / inject_Z limitNum).

(** The handlers below are the functions passed to [app.get].  On
    [/api/client-info] and [/api/logs] the rate limiter [apiLimiter] runs
    first and is a middleware of its own; a handler is what runs once the
    limiter has let the request through. *)

(** *** GET /_health *)

Definition health (w : World) : M Outcome :=
  try_catch
    (_ <-! ret (authenticate w) ;;
     ret (Normal (Sent (json 200
       (HealthBody "ok" "connected" (Date.toISOString (now w)))))))
    (fun _ =>
       ret (Sent (json 503
         (HealthBody "error" "disconnected" (Date.toISOString (now w)))))).

(** *** GET /api/client-info *)

(** [a || b] on a header or socket field that is a string or undefined. *)
Definition or_string (a : option string) (b : string) : string :=
  match a with
  | Some s => if (s =? "")%string then b else s
  | None => b
  end.

Definition NA : value := Str "N/A".

Definition default_location : LocationData :=
  {| loc_city := NA; loc_region := NA; loc_country := NA;
     loc_latitude := NA; loc_longitude := NA |}.

(** The object literal built from [response.data]; reading a property of
    a [null] or [undefined] body throws. *)
Definition location_of (data : value) : completion LocationData :=
  match get data "city", get data "region", get data "country_name",
        get data "latitude", get data "longitude" with
  | Some c, Some r, Some n, Some la, Some lo =>
      Normal {| loc_city := or_else c NA;
                loc_region := or_else r NA;
                loc_country := or_else n NA;
                loc_latitude := or_else la NA;
                loc_longitude := or_else lo NA |}
  | _, _, _, _, _ => Throw "Cannot read properties of null"
  end.

(** [axios.get(url, { timeout })]: one outbound request. *)
Definition axios_GET (w : World) (url : string) (timeout : Z)
  : M (completion value) :=
  emit (HttpGet url timeout) ;; ret (axios_get w url).

(** The argument of [Visit.create]; either [.toString()] may throw. *)
Definition visit_attrs (ip userAgent : string) (l : LocationData)
  : completion VisitAttrs :=
  match toString_method (loc_latitude l) with
  | None => Throw "locationData.latitude.toString is not a function"
  | Some la =>
      match toString_method (loc_longitude l) with
      | None => Throw "locationData.longitude.toString is not a function"
      | Some lo =>
          Normal {| ip := Str ip; user_agent := Str userAgent;
                    city := loc_city l; region := loc_region l;
                    country := loc_country l;
                    latitude := Str la; longitude := Str lo |}
      end
  end.

(** The address the handler works with, before normalisation. *)
Definition extracted_ip (req : Request) : string :=
  or_string (x_forwarded_for req) (or_string (remoteAddress req) "Unknown").

Definition normalize_ip (ip : string) : string :=
  if (ip =? "::1")%string || (ip =? "127.0.0.1")%string then "localhost" else ip.

Definition client_info (w : World) (req : Request) : M Outcome :=
  let ip := extracted_ip req in
  let userAgent := or_string (user_agent_header req) "Unknown" in
  let ip := normalize_ip ip in
  locationData <-
    (if negb (ip =? "localhost")%string && negb (ip =? "Unknown")%string then
       try_catch
         (response <-! axios_GET w ("https://ipapi.co/" ++ ip ++ "/json/") 3000 ;;
          ret (location_of response))
         (fun message =>
            console_log ["Geolocation API request failed:"; message] ;;
            ret default_location)
     else ret default_location) ;;
  try_catch
    (a <-! ret (visit_attrs ip userAgent locationData) ;;
     Visit_create w a)
    (fun message => console_error ["Database error:"; message]) ;;
  ret (Sent (json 200 (ClientInfoBody ip userAgent locationData))).

(** *** GET /api/logs *)

Definition page_error : Body :=
  ErrorBody "Invalid page number. Must be a positive integer.".
Definition limit_error : Body :=
  ErrorBody "Invalid limit. Must be between 1 and 100.".

(** [const { page = 1, limit = 10 } = req.query]: the default stands in
    for [undefined] only. *)
Definition with_default (q : option value) (d : Z) : value :=
  match q with
  | None | Some Undefined => Num (of_Z d)
  | Some v => v
  end.

(** [x < n] and [x > n] against an integer literal: false on NaN. *)
Definition lt (x : integral) (n : Z) : bool :=
  match x with
  | Int v => v <? n
  | MinusInfinity => true
  | NaN | PlusInfinity => false
  end.
Definition gt (x : integral) (n : Z) : bool :=
  match x with
  | Int v => n <? v
  | PlusInfinity => true
  | NaN | MinusInfinity => false
  end.

(** The value of a Number known to be an integer. *)
Definition the (x : integral) : Z :=
  match x with Int v => v | _ => 0 end.

(** The promise of the async handler rejects.  Express 4 does not wait
    for it, so nothing answers the request and the rejection is
    unhandled; Node 15 and later (the Dockerfile runs 22) then ends the
    process with status 1. *)
Definition unhandled_rejection (message : string) : M Outcome :=
  fun st =>
    (Rejected message,
     {| table := table st; effects := effects st; routes := routes st;
        listening := None; exit_code := Some 1 |}).

Definition logs (w : World) (req : Request) : M Outcome :=
  let page := with_default (query_page req) 1 in
  let limit := with_default (query_limit req) 10 in
  match parseInt page with
  | Throw message => unhandled_rejection message
  | Normal pageNum =>
  match parseInt limit with
  | Throw message => unhandled_rejection message
  | Normal limitNum =>
      if isNaN pageNum || lt pageNum 1 then
        ret (Sent (json 400 page_error))
      else if isNaN limitNum || lt limitNum 1 || gt limitNum 100 then
        ret (Sent (json 400 limit_error))
      else
        let offset := multiply (subtract pageNum (Int 1)) limitNum in
        try_catch
          (r <-! Visit_findAndCountAll w offset limitNum ;;
           let (count, rows) := (r : Z * list Visit) in
           ret (Normal (Sent (json 200
             (LogsBody count (the pageNum)
                (Math_ceil_div count (the limitNum)) rows)))))
          (fun message =>
             console_error ["Error fetching logs:"; message] ;;
             ret (Sent (json 500 (ErrorBody "Internal Server Error"))))
  end end.

(** *** Start-up and shutdown *)

Definition set_routes (r : list string) : M unit :=
  fun st =>
    (tt, {| table := table st; effects := effects st; routes := r;
            listening := listening st; exit_code := exit_code st |}).

(** [app.listen(port, ...)] when the port is bound. *)
Definition listen (port : string) : M unit :=
  fun st =>
    (tt, {| table := table st; effects := effects st; routes := routes st;
            listening := Some port; exit_code := exit_code st |}).

(** [server.close(...)] *)
Definition server_close : M unit :=
  fun st =>
    (tt, {| table := table st; effects := effects st; routes := routes st;
            listening := None; exit_code := exit_code st |}).

(** [process.exit(code)] *)
Definition process_exit (code : Z) : M unit :=
  fun st =>
    (tt, {| table := table st; effects := effects st; routes := routes st;
            listening := listening st; exit_code := Some code |}).

(** The number a text of decimal digits stands for. *)
Fixpoint port_numeral (s : string) (acc : Z) : option Z :=
  match s with
  | EmptyString => Some acc
  | String c rest =>
      match digit_value 10 c with
      | Some d => port_numeral rest (acc * 10 + d)
      | None => None
      end
  end.

(** [app.listen(port, ...)] on the text of PORT.  Node reads a decimal
    numeral as a port number and throws ERR_SOCKET_BAD_PORT at once when
    it is above 65535; what becomes of the call otherwise is the
    world's. *)
Definition listen_outcome (w : World) (port : string) : Listen :=
  match port_numeral port 0 with
  | Some n =>
      if 65535 <? n
      then BadPort ("options.port should be >= 0 and < 65536. Received type string ('"
                    ++ port ++ "').")
      else app_listen w port
  | None => app_listen w port
  end.

(** The [try] block of the start-up function.  [url] is the value of
    [process.env.DATABASE_URL] the connection is opened with. *)
Definition startup_try (w : World) : M (completion unit) :=
  url <-!
    (if match NODE_ENV w with Some e => (e =? "production")%string | None => false end
     then
       lift (console_log ["Fetching secrets for production..."]) ;;
       secret <-! ret (getSecret w "DATABASE_URL") ;;
       if (secret =? "")%string
       then ret (Throw "DATABASE_URL is not set.")
       else ret (Normal (Some secret))
     else ret (Normal (DATABASE_URL w))) ;;
  _ <-! ret (new_Sequelize w url) ;;
  _ <-! ret (authenticate w) ;;
  _ <-! lift (console_log ["Database connection established successfully."]) ;;
  _ <-! ret (sync w) ;;
  _ <-! lift (set_routes ["/"; "/_health"; "/favicon.ico"; "/api/client-info";
                          "/api/logs"; "/logs"]) ;;
  let port := or_string (PORT w) "8080" in
  match listen_outcome w port with
  | Bound =>
      _ <-! lift (listen port) ;;
      lift (console_log ["App running at http://localhost:" ++ port])
  | BadPort message => ret (Throw message)
  | Unavailable _ => lift (process_exit 1)
  end.

(** The whole start-up function: the [catch] block logs and returns. *)
Definition startup (w : World) : M unit :=
  try_catch (startup_try w)
    (fun error => console_error ["Failed to initialize application:"; error]).

(** The SIGTERM handler. *)
Definition on_SIGTERM (w : World) : M unit :=
  console_log ["SIGTERM signal received: closing HTTP server"] ;;
  server_close ;;
  console_log ["HTTP server closed"] ;;
  try_catch
    (_ <-! ret (close w) ;;
     _ <-! lift (console_log ["Database connection closed"]) ;;
     lift (process_exit 0))
    (fun message =>
       console_error ["Error closing database connection:"; message] ;;
       process_exit 1).

End App.

(* ================================================================= *)
(** ** The specification's vocabulary *)

(** Readings of the words the specification uses for inputs, to compare
    with what the handlers compute. *)
Module Spec.

(** The value of a text made of decimal digits only, continuing
    [acc]. *)
Fixpoint decimal (s : string) (acc : Z) : option Z :=
  match s with
  | EmptyString => Some acc
  | String c rest =>
      match JS.digit_value 10 c with
      | Some d => decimal rest (acc * 10 + d)
      | None => None
      end
  end.

(** "The query parameter is an integer": its text is an integer numeral,
    an optional minus sign and decimal digits. *)
Definition integer_literal (s : string) : option Z :=
  match s with
  | EmptyString => None
  | String c rest =>
      if (c =? "-")%char then
        match rest with
        | EmptyString => None
        | _ => option_map Z.opp (decimal rest 0)
        end
      else decimal s 0
  end.

(** The integer a query parameter stands for: the default when absent,
    the numeral's value when it is one. *)
Definition integer_parameter (q : option JS.value) (default : Z) : option Z :=
  match q with
  | None => Some default
  | Some (JS.Str s) => integer_literal s
  | Some _ => None
  end.

(** "page is an integer >= 1" *)
Definition valid_page (q : option JS.value) : bool :=
  match integer_parameter q 1 with
  | Some n => 1 <=? n
  | None => false
  end.

(** "limit is an integer between 1 and 100" *)
Definition valid_limit (q : option JS.value) : bool :=
  match integer_parameter q 10 with
  | Some n => (1 <=? n) && (n <=? 100)
  | None => false
  end.

(** Fields of [s] between occurrences of [sep]. *)
Fixpoint split (sep : ascii) (s : string) (cur : string) : list string :=
  match s with
  | EmptyString => [cur]
  | String c rest =>
      if Ascii.eqb c sep then cur :: split sep rest ""
      else split sep rest (cur ++ String c "")
  end.

Definition octet (s : string) : option Z :=
  if (String.length s <=? 3)%nat then
    match integer_literal s with
    | Some n => if (0 <=? n) && (n <=? 255) then Some n else None
    | None => None
    end
  else None.

(** A dotted quad in 127.0.0.0/8. *)
Definition loopback_ipv4 (s : string) : bool :=
  match map octet (split "." s "") with
  | [Some a; Some _; Some _; Some _] => a =? 127
  | _ => false
  end.

(** "A loopback address": [::1], an address of 127.0.0.0/8, or such an
    address in its IPv4-mapped form, which is how a dual-stack listener
    reports an IPv4 peer. *)
Definition loopback_address (s : string) : bool :=
  (s =? "::1")%string
  || loopback_ipv4 s
  || ((String.substring 0 7 s =? "::ffff:")%string
      && loopback_ipv4 (String.substring 7 (String.length s - 7) s)).

(** "All five locationData fields equal N/A" *)
Definition all_NA (l : App.LocationData) : Prop :=
  l = App.default_location.

End Spec.

(* ================================================================= *)
(** ** Sample inputs *)

Module Sample.
Import JS App.

(** Every outside call succeeds; the provider knows nothing. *)
Definition world : World :=
  {| now := 1793651696789;
     NODE_ENV := Some "production";
     PORT := None;
     DATABASE_URL := None;
     getSecret := fun _ => Normal "postgres://visits";
     new_Sequelize := fun _ => Normal tt;
     authenticate := Normal tt;
     sync := Normal tt;
     create := fun _ => Normal tt;
     findAndCountAll := Normal tt;
     close := Normal tt;
     axios_get := fun _ => Normal (Obj []);
     app_listen := fun _ => Bound |}.

(** A request from [addr] with no forwarding header. *)
Definition request_from (addr : string) : Request :=
  {| x_forwarded_for := None; remoteAddress := Some addr;
     user_agent_header := Some "curl/8.5.0";
     query_page := None; query_limit := None |}.

(** A request for [/api/logs?page=..&limit=..]. *)
Definition logs_request (page limit : option string) : Request :=
  {| x_forwarded_for := None; remoteAddress := Some "203.0.113.7";
     user_agent_header := Some "curl/8.5.0";
     query_page := option_map Str page; query_limit := option_map Str limit |}.

Definition row (i t : Z) : Visit :=
  {| id := i;
     attrs := {| ip := Str "203.0.113.7"; user_agent := Str "curl/8.5.0";
                 city := NA; region := NA; country := NA;
                 latitude := NA; longitude := NA |};
     visited_at := t |}.

(** A provider body for Dublin. *)
Definition dublin : value :=
  Obj [ ("city", Str "Dublin"); ("region", Str "Leinster");
        ("country_name", Str "Ireland");
        ("latitude", Num (Dec 533498 4)); ("longitude", Num (Dec (-62603) 4)) ].

(** A provider body on the equator with an empty city. *)
Definition equator : value :=
  Obj [ ("city", Str ""); ("region", Str "Pichincha");
        ("country_name", Str "Ecuador");
        ("latitude", Num (Dec 0 0)); ("longitude", Num (Dec (-785) 1)) ].

End Sample.

(* ================================================================= *)
(** ** Reading a run *)

Module Run.
Import JS App.

(** URLs of the outbound requests among the effects, in order. *)
Fixpoint http_calls (l : list Effect) : list string :=
  match l with
  | [] => []
  | HttpGet url _ :: rest => url :: http_calls rest
  | _ :: rest => http_calls rest
  end.

(** Arguments of the [console.error] calls among the effects. *)
Fixpoint console_errors (l : list Effect) : list (list string) :=
  match l with
  | [] => []
  | ConsoleError args :: rest => args :: console_errors rest
  | _ :: rest => console_errors rest
  end.

Definition geolocation_url (ip : string) : string :=
  "https://ipapi.co/" ++ ip ++ "/json/".

(** Whether the handler leaves the provider alone for this address. *)
Definition skips_geolocation (ip : string) : bool :=
  (ip =? "localhost")%string || (ip =? "Unknown")%string.

(** What the provider supplied under key [k]: an own property of an
    object body.  A body that is not an object supplies nothing. *)
Definition supplied (data : value) (k : string) : option value :=
  match data with
  | Obj props => own_property props k
  | _ => None
  end.

(** The [locationData] the capture handler ends with for address [ip]. *)
Definition located (w : World) (ip : string) : LocationData :=
  if skips_geolocation ip then default_location
  else
    match axios_get w (geolocation_url ip) with
    | Normal data =>
        match location_of data with
        | Normal l => l
        | Throw _ => default_location
        end
    | Throw _ => default_location
    end.

(** What the [try] block around [Visit.create] comes to for address
    [ip]: the columns written, or the message of what was thrown, by
    [.toString()], by the validation or by the insert. *)
Definition written (w : World) (ip userAgent : string) : completion VisitAttrs :=
  match visit_attrs ip userAgent (located w ip) with
  | Normal a =>
      match persisted a with
      | Normal columns =>
          match create w a with
          | Normal _ => Normal columns
          | Throw message => Throw message
          end
      | Throw message => Throw message
      end
  | Throw message => Throw message
  end.

(** The rows the capture handler adds for address [ip]: one when the
    attributes can be built and the insert succeeds, none otherwise. *)
Definition stored (w : World) (ip userAgent : string) (st : State) : list Visit :=
  match written w ip userAgent with
  | Normal columns =>
      [ {| id := Z.of_nat (List.length (table st)) + 1;
           attrs := columns; visited_at := now w |} ]
  | Throw _ => []
  end.

(** What [location_of] makes of a body, field by field: the supplied
    value when it is truthy, N/A otherwise. *)
Definition field_or_NA (data : value) (k : string) : value :=
  match supplied data k with
  | Some v => or_else v NA
  | None => NA
  end.

(** The handler's own test on a parsed parameter. *)
Definition page_accepted (pageNum : integral) : Prop :=
  pageNum = PlusInfinity \/ exists n, pageNum = Int n /\ 1 <= n.

Definition limit_accepted (limitNum : integral) : Prop :=
  exists n, limitNum = Int n /\ 1 <= n <= 100.

(** Most recent first. *)
Definition newer_or_same (a b : Visit) : Prop := visited_at b <= visited_at a.

Definition location_keys : list string :=
  ["city"; "region"; "country_name"; "latitude"; "longitude"].

End Run.

(* ================================================================= *)
(** ** Sentences of the specification, as written *)

(** Each is a property of one run of a handler, stated with the
    vocabulary of [Spec]. *)
Module Stated.
Import JS App Run.

(** "/api/logs responds 400 with the page message exactly when page is
    not an integer >= 1, and 400 with the limit message exactly when
    limit is not an integer between 1 and 100." *)
Definition validation_exact (w : World) (req : Request) (st : State) : Prop :=
  (fst (logs w req st) = Sent (json 400 page_error)
     <-> Spec.valid_page (query_page req) = false)
  /\ (fst (logs w req st) = Sent (json 400 limit_error)
     <-> Spec.valid_limit (query_limit req) = false).

(** "The provider call fails": it throws (timeout, non-2xx), or the body
    lacks one of the fields (a malformed body lacks them all). *)
Definition provider_fails (w : World) (ip : string) : Prop :=
  match axios_get w (geolocation_url ip) with
  | Throw _ => True
  | Normal data => exists k, In k location_keys /\ supplied data k = None
  end.

(** "If the provider call fails, the handler does not raise, calls once,
    and answers 200 with all five fields N/A." *)
Definition failure_gives_all_NA (w : World) (req : Request) (st : State) : Prop :=
  let ip := normalize_ip (extracted_ip req) in
  skips_geolocation ip = false ->
  provider_fails w ip ->
  (exists userAgent locationData,
      fst (client_info w req st)
        = Sent (json 200 (ClientInfoBody ip userAgent locationData))
      /\ Spec.all_NA locationData)
  /\ http_calls (effects (snd (client_info w req st)))
     = (http_calls (effects st) ++ [geolocation_url ip])%list.

(** "From a loopback address the response has ip localhost, no provider
    call is made and every locationData field is N/A." *)
Definition loopback_is_localhost (w : World) (req : Request) (st : State) : Prop :=
  Spec.loopback_address (extracted_ip req) = true ->
  (exists userAgent locationData,
      fst (client_info w req st)
        = Sent (json 200 (ClientInfoBody "localhost" userAgent locationData))
      /\ Spec.all_NA locationData)
  /\ http_calls (effects (snd (client_info w req st))) = http_calls (effects st).

(** "Whenever the write succeeds, the Visit row agrees field for field
    with the response: ip, user_agent, city, region and country equal the
    response's, latitude and longitude equal the response's after string
    conversion." *)
Definition stored_row_agrees (w : World) (req : Request) (st : State) : Prop :=
  forall address userAgent l row,
    fst (client_info w req st)
      = Sent (json 200 (ClientInfoBody address userAgent l)) ->
    table (snd (client_info w req st)) = (table st ++ [row])%list ->
    ip (attrs row) = Str address
    /\ user_agent (attrs row) = Str userAgent
    /\ city (attrs row) = loc_city l
    /\ region (attrs row) = loc_region l
    /\ country (attrs row) = loc_country l
    /\ Some (latitude (attrs row)) = option_map Str (toString_method (loc_latitude l))
    /\ Some (longitude (attrs row)) = option_map Str (toString_method (loc_longitude l)).

(** "For every valid page >= 1 a successful response has currentPage
    equal to page." *)
Definition current_page_is_page (w : World) (req : Request) (st : State) : Prop :=
  forall page,
    Spec.integer_parameter (query_page req) 1 = Some page ->
    1 <= page ->
    forall total current pages rows,
      fst (logs w req st) = Sent (json 200 (LogsBody total current pages rows)) ->
      current = page.

End Stated.

(* ================================================================= *)
(** ** config/config.js *)

Module Config.









End Config.

(* ================================================================= *)
(** ** More ways to read and vary a run *)

Module Vary.
Import JS App.

(** Rows of the [Visit.create] calls that succeeded, in order. *)
Fixpoint inserted (l : list Effect) : list Visit :=
  match l with
  | [] => []
  | Insert row :: rest => row :: inserted rest
  | _ :: rest => inserted rest
  end.

(** The same world with another [process.env.DATABASE_URL]. *)
Definition with_DATABASE_URL (w : World) (u : option string) : World :=
  {| now := now w; NODE_ENV := NODE_ENV w; PORT := PORT w;
     DATABASE_URL := u; getSecret := getSecret w;
     new_Sequelize := new_Sequelize w; authenticate := authenticate w;
     sync := sync w; create := create w; findAndCountAll := findAndCountAll w;
     close := close w; axios_get := axios_get w;
     app_listen := app_listen w |}.

(** The same world with another outcome of the listing query. *)
Definition with_findAndCountAll (w : World) (r : completion unit) : World :=
  {| now := now w; NODE_ENV := NODE_ENV w; PORT := PORT w;
     DATABASE_URL := DATABASE_URL w; getSecret := getSecret w;
     new_Sequelize := new_Sequelize w; authenticate := authenticate w;
     sync := sync w; create := create w; findAndCountAll := r;
     close := close w; axios_get := axios_get w;
     app_listen := app_listen w |}.

(** The same world with another outcome of [sequelize.close()]. *)
Definition with_close (w : World) (r : completion unit) : World :=
  {| now := now w; NODE_ENV := NODE_ENV w; PORT := PORT w;
     DATABASE_URL := DATABASE_URL w; getSecret := getSecret w;
     new_Sequelize := new_Sequelize w; authenticate := authenticate w;
     sync := sync w; create := create w; findAndCountAll := findAndCountAll w;
     close := r; axios_get := axios_get w; app_listen := app_listen w |}.

(** The same world in another mode. *)
Definition with_NODE_ENV (w : World) (e : option string) : World :=
  {| now := now w; NODE_ENV := e; PORT := PORT w;
     DATABASE_URL := DATABASE_URL w; getSecret := getSecret w;
     new_Sequelize := new_Sequelize w; authenticate := authenticate w;
     sync := sync w; create := create w; findAndCountAll := findAndCountAll w;
     close := close w; axios_get := axios_get w;
     app_listen := app_listen w |}.

(** The same request arriving from another socket address. *)
Definition with_PORT (w : World) (p : option string) : World :=
  {| now := now w; NODE_ENV := NODE_ENV w; PORT := p;
     DATABASE_URL := DATABASE_URL w; getSecret := getSecret w;
     new_Sequelize := new_Sequelize w; authenticate := authenticate w;
     sync := sync w; create := create w; findAndCountAll := findAndCountAll w;
     close := close w; axios_get := axios_get w;
     app_listen := app_listen w |}.

Definition with_app_listen (w : World) (l : string -> Listen) : World :=
  {| now := now w; NODE_ENV := NODE_ENV w; PORT := PORT w;
     DATABASE_URL := DATABASE_URL w; getSecret := getSecret w;
     new_Sequelize := new_Sequelize w; authenticate := authenticate w;
     sync := sync w; create := create w; findAndCountAll := findAndCountAll w;
     close := close w; axios_get := axios_get w;
     app_listen := l |}.

Definition with_remoteAddress (req : Request) (a : option string) : Request :=
  {| x_forwarded_for := x_forwarded_for req; remoteAddress := a;
     user_agent_header := user_agent_header req;
     query_page := query_page req; query_limit := query_limit req |}.

(** [process.env.NODE_ENV === 'production'] *)
Definition production (w : World) : bool :=
  match NODE_ENV w with
  | Some e => (e =? "production")%string
  | None => false
  end.

(** The paths start-up registers, in order. *)
Definition all_routes : list string :=
  ["/"; "/_health"; "/favicon.ico"; "/api/client-info"; "/api/logs"; "/logs"].

(** The page of [limit] rows that holds position [i] of the listing. *)
Definition page_of (i : nat) (limit : Z) : Z := Z.of_nat i / limit + 1.

End Vary.

(* ================================================================= *)
(** ** Properties of the capture handler *)

Import JS App Run.

Lemma http_calls_app (a b : list Effect) :
  http_calls (a ++ b) = (http_calls a ++ http_calls b)%list.
Proof.
  induction a as [|e a IH]; simpl; [reflexivity|].
  destruct e; simpl; now rewrite IH.
Qed.

Lemma console_errors_app (a b : list Effect) :
  console_errors (a ++ b) = (console_errors a ++ console_errors b)%list.
Proof.
  induction a as [|e a IH]; simpl; [reflexivity|].
  destruct e; simpl; now rewrite IH.
Qed.

Ltac run_monad :=
  unfold try_catch, bind_try, lift, bind, ret, axios_GET, Visit_create,
    console_log, console_error, emit; simpl.

(** One run of the capture handler, summarised: the response, the
    outbound calls, the rows added and the errors logged. *)
Lemma client_info_run (w : World) (req : Request) (st : State) :
  let ip := normalize_ip (extracted_ip req) in
  let userAgent := or_string (user_agent_header req) "Unknown" in
  let st' := snd (client_info w req st) in
  fst (client_info w req st)
    = Sent (json 200 (ClientInfoBody ip userAgent (located w ip)))
  /\ http_calls (effects st')
     = (http_calls (effects st)
        ++ (if skips_geolocation ip then [] else [geolocation_url ip]))%list
  /\ table st' = (table st ++ stored w ip userAgent st)%list
  /\ console_errors (effects st')
     = (console_errors (effects st)
        ++ match written w ip userAgent with
           | Normal _ => []
           | Throw message => [["Database error:"; message]]
           end)%list.
Proof.
  intros ip userAgent st'. subst st'.
  unfold client_info, stored, written, located, skips_geolocation.
  fold ip userAgent. fold (geolocation_url ip).
  destruct (ip =? "localhost")%string; simpl;
    [| destruct (ip =? "Unknown")%string; simpl ];
    run_monad;
    repeat match goal with
      | |- context [match ?x with Normal _ => _ | Throw _ => _ end] =>
          destruct x; simpl
      end;
    rewrite ?console_errors_app, ?http_calls_app; simpl;
    rewrite ?app_nil_r, <- ?app_assoc; simpl; auto.
Qed.

Lemma located_with_create (w : World) (c : VisitAttrs -> completion unit) (ip : string) :
  located (with_create w c) ip = located w ip.
Proof. reflexivity. Qed.

Lemma or_else_Undefined (v : value) : or_else Undefined v = v.
Proof. reflexivity. Qed.

Lemma location_of_fields (data : value) (l : LocationData) :
  location_of data = Normal l ->
  loc_city l = field_or_NA data "city"
  /\ loc_region l = field_or_NA data "region"
  /\ loc_country l = field_or_NA data "country_name"
  /\ loc_latitude l = field_or_NA data "latitude"
  /\ loc_longitude l = field_or_NA data "longitude".
Proof.
  unfold location_of, field_or_NA, supplied.
  destruct data as [| |b|n|s|items|props]; simpl; try discriminate;
    try (intros H; injection H as <-; simpl; auto 6).
  repeat match goal with
    | |- context [own_property props ?k] => destruct (own_property props k)
    end;
    intros H; injection H as <-; simpl; auto 6.
Qed.

Lemma location_of_throws (data : value) (m : string) :
  location_of data = Throw m -> forall k, supplied data k = None.
Proof.
  unfold location_of, supplied.
  destruct data as [| |b|n|s|items|props]; simpl; try discriminate; auto.
  repeat match goal with
    | |- context [match own_property props ?k with _ => _ end] =>
        destruct (own_property props k)
    end; discriminate.
Qed.

(** The fields of [located], case by case. *)
Lemma located_fields (w : World) (ip : string) :
  skips_geolocation ip = false ->
  match axios_get w (geolocation_url ip) with
  | Throw _ => located w ip = default_location
  | Normal data =>
      loc_city (located w ip) = field_or_NA data "city"
      /\ loc_region (located w ip) = field_or_NA data "region"
      /\ loc_country (located w ip) = field_or_NA data "country_name"
      /\ loc_latitude (located w ip) = field_or_NA data "latitude"
      /\ loc_longitude (located w ip) = field_or_NA data "longitude"
  end.
Proof.
  intros Hskip. unfold located. rewrite Hskip.
  destruct (axios_get w (geolocation_url ip)) as [data|m]; [|reflexivity].
  destruct (location_of data) as [l|m] eqn:E.
  - now apply location_of_fields.
  - pose proof (location_of_throws _ _ E) as Hnone.
    unfold field_or_NA. rewrite !Hnone. simpl. auto 6.
Qed.

Lemma toString_method_NA : toString_method NA = Some "N/A".
Proof. reflexivity. Qed.

(** The attributes built for the insert, read off the response fields. *)
Lemma visit_attrs_fields (address userAgent : string) (l : LocationData) (a : VisitAttrs) :
  visit_attrs address userAgent l = Normal a ->
  ip a = Str address /\ user_agent a = Str userAgent
  /\ city a = loc_city l /\ region a = loc_region l /\ country a = loc_country l
  /\ Some (latitude a) = option_map Str (toString_method (loc_latitude l))
  /\ Some (longitude a) = option_map Str (toString_method (loc_longitude l)).
Proof.
  unfold visit_attrs.
  destruct (toString_method (loc_latitude l)) as [la|]; [|discriminate].
  destruct (toString_method (loc_longitude l)) as [lo|]; [|discriminate].
  intros H; injection H as <-; simpl; auto 8.
Qed.

(** What [persisted] keeps of each attribute. *)
Lemma persisted_fields (a columns : VisitAttrs) :
  persisted a = Normal columns ->
  column_text (ip a) = Some (ip columns)
  /\ column_text (user_agent a) = Some (user_agent columns)
  /\ column_text (city a) = Some (city columns)
  /\ column_text (region a) = Some (region columns)
  /\ column_text (country a) = Some (country columns)
  /\ column_text (latitude a) = Some (latitude columns)
  /\ column_text (longitude a) = Some (longitude columns).
Proof.
  unfold persisted, the_text. cbn [string_violations].
  destruct (column_text (ip a)); [|discriminate].
  destruct (column_text (user_agent a)); [|discriminate].
  destruct (column_text (city a)); [|discriminate].
  destruct (column_text (region a)); [|discriminate].
  destruct (column_text (country a)); [|discriminate].
  destruct (column_text (latitude a)); [|discriminate].
  destruct (column_text (longitude a)); [|discriminate].
  intros H. injection H as <-. simpl. auto 8.
Qed.

Lemma column_text_Str (v : value) (s : string) :
  v = Str s -> column_text v = Some v.
Proof. intros ->. reflexivity. Qed.

Lemma stored_rows (w : World) (address userAgent : string) (st : State) (row : Visit) :
  In row (stored w address userAgent st) ->
  (exists a,
      visit_attrs address userAgent (located w address) = Normal a
      /\ persisted a = Normal (attrs row)
      /\ create w a = Normal tt)
  /\ visited_at row = now w.
Proof.
  unfold stored, written.
  destruct (visit_attrs address userAgent (located w address)) as [a|m] eqn:Ea;
    [|intros []].
  destruct (persisted a) as [columns|m] eqn:Ep; [|intros []].
  destruct (create w a) as [[]|m] eqn:Ec; [|intros []].
  intros [<-|[]]; simpl; eauto.
Qed.

(** The columns of a stored row, read off the response fields: the
    address, the user agent and the two coordinates are strings and are
    kept; city, region and country are kept as their text. *)
Lemma stored_columns (w : World) (address userAgent : string) (st : State) (row : Visit) :
  In row (stored w address userAgent st) ->
  ip (attrs row) = Str address
  /\ user_agent (attrs row) = Str userAgent
  /\ column_text (loc_city (located w address)) = Some (city (attrs row))
  /\ column_text (loc_region (located w address)) = Some (region (attrs row))
  /\ column_text (loc_country (located w address)) = Some (country (attrs row))
  /\ Some (latitude (attrs row))
     = option_map Str (toString_method (loc_latitude (located w address)))
  /\ Some (longitude (attrs row))
     = option_map Str (toString_method (loc_longitude (located w address))).
Proof.
  intros Hin. apply stored_rows in Hin. destruct Hin as ((a & Ha & Hp & _) & _).
  apply visit_attrs_fields in Ha.
  destruct Ha as (Hip & Hua & Hci & Hre & Hco & Hla & Hlo).
  apply persisted_fields in Hp.
  destruct Hp as (Pip & Pua & Pci & Pre & Pco & Pla & Plo).
  rewrite Hip in Pip. rewrite Hua in Pua. rewrite Hci in Pci.
  rewrite Hre in Pre. rewrite Hco in Pco.
  simpl in Pip, Pua. injection Pip as <-. injection Pua as <-.
  repeat split; auto.
  - destruct (toString_method (loc_latitude (located w address))) as [la|];
      [|discriminate]. simpl in *. injection Hla as Hla. rewrite Hla in Pla.
    simpl in Pla. now injection Pla as <-.
  - destruct (toString_method (loc_longitude (located w address))) as [lo|];
      [|discriminate]. simpl in *. injection Hlo as Hlo. rewrite Hlo in Plo.
    simpl in Plo. now injection Plo as <-.
Qed.

(** C3: when [Visit.create] fails, the capture handler answers exactly
    as it does when the insert succeeds, with status 200 and the body
    [{ip, userAgent, locationData}]; nothing is stored, and the failure
    shows only as one [console.error('Database error:', ...)]. *)
Theorem create_failure_is_absorbed
    (w : World) (req : Request) (st : State)
    (fail : VisitAttrs -> completion unit) (message : string)
    (Hfail : forall a, fail a = Throw message) :
  let failed := client_info (with_create w fail) req st in
  let succeeded := client_info (with_create w (fun _ => Normal tt)) req st in
  fst failed = fst succeeded
  /\ (exists address userAgent locationData,
        fst failed = Sent (json 200 (ClientInfoBody address userAgent locationData)))
  /\ table (snd failed) = table st
  /\ exists logged,
       console_errors (effects (snd failed))
       = (console_errors (effects st) ++ [["Database error:"; logged]])%list.
Proof.
  intros failed succeeded. subst failed succeeded.
  destruct (client_info_run (with_create w fail) req st) as (Hr & _ & Ht & He).
  destruct (client_info_run (with_create w (fun _ => Normal tt)) req st)
    as (Hr' & _).
  rewrite located_with_create in *.
  assert (Hw : exists logged,
             written (with_create w fail) (normalize_ip (extracted_ip req))
               (or_string (user_agent_header req) "Unknown") = Throw logged).
  { unfold written. rewrite located_with_create. simpl.
    destruct (visit_attrs _ _ _) as [a|m]; [|eauto].
    destruct (persisted a); [rewrite Hfail|]; eauto. }
  destruct Hw as (logged & Hw).
  repeat split.
  - now rewrite Hr, Hr'.
  - eauto.
  - rewrite Ht. unfold stored. rewrite Hw. now rewrite app_nil_r.
  - rewrite He, Hw. eauto.
Qed.

Lemma create_failure_is_absorbed_witness :
  let fail : VisitAttrs -> completion unit := fun _ => Throw "connection refused" in
  let req := Sample.request_from "203.0.113.7" in
  (forall a, fail a = Throw "connection refused")
  /\ fst (client_info (with_create Sample.world fail) req (initial []))
     = fst (client_info (with_create Sample.world (fun _ => Normal tt)) req (initial []))
  /\ table (snd (client_info (with_create Sample.world fail) req (initial []))) = [].
Proof.
  intros fail req.
  pose proof (create_failure_is_absorbed Sample.world req (initial []) fail
                "connection refused" (fun _ => eq_refl)) as (H1 & _ & H2 & _).
  split; [reflexivity | split; [exact H1 | exact H2]].
Defined.

(** C4 (as the code has it): for an address that is neither localhost nor
    Unknown the handler does not raise, makes exactly one provider call
    and answers 200.  When the call throws (timeout, non-2xx), or the
    body supplies none of the five fields (a malformed body supplies
    none), all five locationData fields are N/A.  Otherwise each field is
    decided on its own: it is the value the body supplies when that
    value is truthy, and N/A when the body lacks the field or supplies a
    falsy value for it. *)
Theorem provider_failure_is_absorbed
    (w : World) (req : Request) (st : State)
    (Haddr : skips_geolocation (normalize_ip (extracted_ip req)) = false) :
  let address := normalize_ip (extracted_ip req) in
  let out := client_info w req st in
  exists userAgent l,
    fst out = Sent (json 200 (ClientInfoBody address userAgent l))
    /\ http_calls (effects (snd out))
       = (http_calls (effects st) ++ [geolocation_url address])%list
    /\ (forall message,
          axios_get w (geolocation_url address) = Throw message ->
          Spec.all_NA l)
    /\ (forall data,
          axios_get w (geolocation_url address) = Normal data ->
          ((forall k, In k location_keys -> supplied data k = None) ->
           Spec.all_NA l)
          /\ (forall k field,
                In (k, field)
                   [("city", loc_city l); ("region", loc_region l);
                    ("country_name", loc_country l);
                    ("latitude", loc_latitude l);
                    ("longitude", loc_longitude l)] ->
                match supplied data k with
                | Some v => field = if truthy v then v else NA
                | None => field = NA
                end)).
Proof.
  intros address out. subst out address.
  destruct (client_info_run w req st) as (Hr & Hc & _).
  rewrite Haddr in Hc.
  set (address := normalize_ip (extracted_ip req)) in *.
  exists (or_string (user_agent_header req) "Unknown"), (located w address).
  split; [exact Hr|]. split; [exact Hc|].
  pose proof (located_fields w address Haddr) as Hf.
  split.
  - intros message E. rewrite E in Hf. exact Hf.
  - intros data E. rewrite E in Hf.
    destruct Hf as (Hci & Hre & Hco & Hla & Hlo).
    unfold field_or_NA, or_else in *.
    split.
    + intros Hnone. unfold Spec.all_NA.
      rewrite !Hnone in * by (unfold location_keys; simpl; auto 6).
      destruct (located w address); simpl in *; subst; reflexivity.
    + intros k field Hin. simpl in Hin.
      destruct Hin as [H | [H | [H | [H | [H | []]]]]];
        injection H as <- <-.
      * rewrite Hci. now destruct (supplied data "city").
      * rewrite Hre. now destruct (supplied data "region").
      * rewrite Hco. now destruct (supplied data "country_name").
      * rewrite Hla. now destruct (supplied data "latitude").
      * rewrite Hlo. now destruct (supplied data "longitude").
Qed.

Lemma provider_failure_is_absorbed_witness :
  let w := with_axios Sample.world (fun _ => Throw "timeout of 3000ms exceeded") in
  let req := Sample.request_from "203.0.113.7" in
  skips_geolocation (normalize_ip (extracted_ip req)) = false
  /\ exists userAgent l,
       fst (client_info w req (initial []))
         = Sent (json 200 (ClientInfoBody "203.0.113.7" userAgent l))
       /\ Spec.all_NA l.
Proof.
  intros w req.
  split; [reflexivity|].
  destruct (provider_failure_is_absorbed w req (initial []) eq_refl)
    as (userAgent & l & Hr & _ & Hthrow & _).
  exists userAgent, l.
  split; [exact Hr | exact (Hthrow _ eq_refl)].
Defined.

(** A body whose city is empty and whose region is not: the empty city
    is replaced, the region is kept. *)
Example falsy_city_is_replaced_and_region_kept :
  located (with_axios Sample.world
             (fun _ => Normal (Obj [("city", Str ""); ("region", Str "Leinster")])))
    "203.0.113.7"
  = {| loc_city := NA; loc_region := Str "Leinster"; loc_country := NA;
       loc_latitude := NA; loc_longitude := NA |}.
Proof. reflexivity. Qed.

(** C4, counterexample: a 200 body that carries the city but no
    latitude is a provider failure by a missing field, and the response
    keeps the city. *)
Lemma partial_body_keeps_supplied_fields :
  ~ Stated.failure_gives_all_NA
      (with_axios Sample.world (fun _ => Normal (Obj [("city", Str "Dublin")])))
      (Sample.request_from "203.0.113.7") (initial []).
Proof.
  unfold Stated.failure_gives_all_NA. intros H.
  destruct H as ((userAgent & l & Hr & Hall) & _).
  - reflexivity.
  - simpl. exists "latitude". split; [simpl; auto 6 | reflexivity].
  - unfold Spec.all_NA in Hall. subst l. vm_compute in Hr. discriminate Hr.
Qed.

(** C5 (as the code has it): when the extracted address is [::1] or
    [127.0.0.1], the response has ip "localhost", every locationData
    field is N/A, and no provider call is made. *)
Theorem loopback_literals_become_localhost
    (w : World) (req : Request) (st : State)
    (Haddr : extracted_ip req = "::1" \/ extracted_ip req = "127.0.0.1") :
  let out := client_info w req st in
  (exists userAgent locationData,
      fst out = Sent (json 200 (ClientInfoBody "localhost" userAgent locationData))
      /\ Spec.all_NA locationData)
  /\ http_calls (effects (snd out)) = http_calls (effects st).
Proof.
  intros out. subst out.
  destruct (client_info_run w req st) as (Hr & Hc & _).
  assert (E : normalize_ip (extracted_ip req) = "localhost")
    by (destruct Haddr as [-> | ->]; reflexivity).
  rewrite E in Hr, Hc. simpl in Hc. rewrite app_nil_r in Hc.
  split; [|exact Hc].
  eexists _, _. split; [exact Hr | reflexivity].
Qed.

Lemma loopback_literals_become_localhost_witness :
  let req := Sample.request_from "::1" in
  (extracted_ip req = "::1" \/ extracted_ip req = "127.0.0.1")
  /\ http_calls (effects (snd (client_info Sample.world req (initial [])))) = [].
Proof.
  intros req.
  split; [left; reflexivity|].
  exact (proj2 (loopback_literals_become_localhost Sample.world req (initial [])
                  (or_introl eq_refl))).
Defined.

(** C5, counterexample: [::ffff:127.0.0.1], the IPv4-mapped loopback
    address, and [127.0.0.2] are loopback addresses the handler does not
    recognise: the response carries the address itself and the provider
    is called. *)
Lemma other_loopback_forms_are_geolocated :
  ~ Stated.loopback_is_localhost Sample.world
      (Sample.request_from "::ffff:127.0.0.1") (initial [])
  /\ ~ Stated.loopback_is_localhost Sample.world
        (Sample.request_from "127.0.0.2") (initial []).
Proof.
  split; intros H; destruct (H eq_refl) as (_ & Hcalls);
    vm_compute in Hcalls; discriminate Hcalls.
Qed.


Lemma Forall_stored (w : World) (address userAgent : string) (st : State)
    (P : VisitAttrs -> Prop) :
  (forall c,
      ip c = Str address ->
      column_text (loc_city (located w address)) = Some (city c) ->
      column_text (loc_region (located w address)) = Some (region c) ->
      column_text (loc_country (located w address)) = Some (country c) ->
      Some (latitude c)
      = option_map Str (toString_method (loc_latitude (located w address))) ->
      Some (longitude c)
      = option_map Str (toString_method (loc_longitude (located w address))) ->
      P c) ->
  Forall (fun row => P (attrs row)) (stored w address userAgent st).
Proof.
  intros H. apply Forall_forall. intros row Hin.
  apply stored_columns in Hin.
  destruct Hin as (Hip & _ & Hci & Hre & Hco & Hla & Hlo).
  now apply H.
Qed.



(** The run of the witness does store a row, with N/A for the latitude
    the provider gave as 0. *)
Example equator_row_is_stored :
  map (fun row => (city (attrs row), latitude (attrs row), longitude (attrs row)))
    (table (snd (client_info (with_axios Sample.world (fun _ => Normal Sample.equator))
                   (Sample.request_from "203.0.113.7") (initial []))))
  = [(NA, NA, Str "-78.5")].
Proof. reflexivity. Qed.

(** C10 (as the code has it): when the insert succeeds, the row agrees
    with the response body in this way: ip with ip and user_agent with
    userAgent; city, region and country are the text the STRING column
    keeps of the locationData field, which is the field itself when it is
    a string and the field's text when it is a number; latitude and
    longitude are the locationData fields converted by [.toString()]. *)
Theorem stored_visit_agrees_with_response
    (w : World) (req : Request) (st : State)
    (address userAgent : string) (l : LocationData) (row : Visit)
    (Hresponse : fst (client_info w req st)
                 = Sent (json 200 (ClientInfoBody address userAgent l)))
    (Hstored : table (snd (client_info w req st)) = (table st ++ [row])%list) :
  ip (attrs row) = Str address
  /\ user_agent (attrs row) = Str userAgent
  /\ column_text (loc_city l) = Some (city (attrs row))
  /\ column_text (loc_region l) = Some (region (attrs row))
  /\ column_text (loc_country l) = Some (country (attrs row))
  /\ (forall s, loc_city l = Str s -> city (attrs row) = loc_city l)
  /\ (forall s, loc_region l = Str s -> region (attrs row) = loc_region l)
  /\ (forall s, loc_country l = Str s -> country (attrs row) = loc_country l)
  /\ (forall n, loc_city l = Num n -> city (attrs row) = Str (number_toString n))
  /\ (forall n, loc_region l = Num n -> region (attrs row) = Str (number_toString n))
  /\ (forall n, loc_country l = Num n -> country (attrs row) = Str (number_toString n))
  /\ Some (latitude (attrs row)) = option_map Str (toString_method (loc_latitude l))
  /\ Some (longitude (attrs row)) = option_map Str (toString_method (loc_longitude l)).
Proof.
  destruct (client_info_run w req st) as (Hr & _ & Ht & _).
  rewrite Hr in Hresponse. injection Hresponse as Ea Eu El.
  rewrite Hstored in Ht. apply app_inv_head in Ht.
  assert (Hin : In row (stored w (normalize_ip (extracted_ip req))
                          (or_string (user_agent_header req) "Unknown") st))
    by (rewrite <- Ht; now left).
  apply stored_columns in Hin. subst address userAgent l.
  destruct Hin as (Hip & Hua & Hci & Hre & Hco & Hla & Hlo).
  repeat split; auto.
  - intros s E. rewrite E in Hci. simpl in Hci. injection Hci as <-. now symmetry.
  - intros s E. rewrite E in Hre. simpl in Hre. injection Hre as <-. now symmetry.
  - intros s E. rewrite E in Hco. simpl in Hco. injection Hco as <-. now symmetry.
  - intros n E. rewrite E in Hci. simpl in Hci. now injection Hci as <-.
  - intros n E. rewrite E in Hre. simpl in Hre. now injection Hre as <-.
  - intros n E. rewrite E in Hco. simpl in Hco. now injection Hco as <-.
Qed.

Lemma stored_visit_agrees_with_response_witness :
  let w := with_axios Sample.world (fun _ => Normal Sample.dublin) in
  let req := Sample.request_from "203.0.113.7" in
  exists address userAgent l row,
    fst (client_info w req (initial []))
      = Sent (json 200 (ClientInfoBody address userAgent l))
    /\ table (snd (client_info w req (initial []))) = ([] ++ [row])%list
    /\ loc_latitude l = Num (Dec 533498 4)
    /\ ip (attrs row) = Str address
    /\ city (attrs row) = loc_city l
    /\ Some (latitude (attrs row)) = option_map Str (toString_method (loc_latitude l)).
Proof.
  intros w req.
  eexists _, _, _, _.
  split; [reflexivity|]. split; [reflexivity|]. split; [reflexivity|].
  pose proof (stored_visit_agrees_with_response w req (initial [])
                _ _ _ _ eq_refl eq_refl)
    as (H1 & _ & _ & _ & _ & H6 & _ & _ & _ & _ & _ & H12 & _).
  split; [exact H1|]. split; [exact (H6 "Dublin" eq_refl) | exact H12].
Defined.

(** C10, counterexample: a provider body whose city is the number 7.
    The response carries the number; the row keeps the text "7". *)
Lemma numeric_city_is_stored_as_text :
  ~ Stated.stored_row_agrees
      (with_axios Sample.world
         (fun _ => Normal (Obj [("city", Num (of_Z 7))])))
      (Sample.request_from "203.0.113.7") (initial []).
Proof.
  intros H.
  specialize (H _ _ _ _ eq_refl eq_refl).
  destruct H as (_ & _ & Hcity & _).
  vm_compute in Hcity. discriminate Hcity.
Qed.


(** C8: every row the capture handler stores holds latitude and
    longitude as strings, and the model of app.js types both columns
    STRING; the model of models/visit.js types them FLOAT. *)
Theorem latitude_longitude_typing :
  (forall (w : World) (req : Request) (st : State),
      exists added,
        table (snd (client_info w req st)) = (table st ++ added)%list
        /\ Forall (fun row => exists la lo,
                      latitude (attrs row) = Str la
                      /\ longitude (attrs row) = Str lo) added)
  /\ attribute_type Visit_define "latitude" = Some STRING
  /\ attribute_type Visit_define "longitude" = Some STRING
  /\ attribute_type Visit_init "latitude" = Some FLOAT
  /\ attribute_type Visit_init "longitude" = Some FLOAT.
Proof.
  split; [|repeat split; reflexivity].
  intros w req st.
  destruct (client_info_run w req st) as (_ & _ & Ht & _).
  eexists. split; [exact Ht|].
  apply Forall_stored with (P := fun a => exists la lo,
                                   latitude a = Str la /\ longitude a = Str lo).
  intros c _ _ _ _ Hla Hlo.
  destruct (toString_method (loc_latitude _)) as [la|]; [|discriminate].
  destruct (toString_method (loc_longitude _)) as [lo|]; [|discriminate].
  simpl in *. injection Hla as ->. injection Hlo as ->. eauto.
Qed.

(* ================================================================= *)
(** ** Properties of the time stamp *)

Lemma digit_value_digit_char (d : Z) :
  0 <= d < 10 -> digit_value 10 (digit_char d) = Some d.
Proof.
  intros H.
  assert (E : d = 0 \/ d = 1 \/ d = 2 \/ d = 3 \/ d = 4 \/ d = 5 \/ d = 6
              \/ d = 7 \/ d = 8 \/ d = 9) by lia.
  repeat (destruct E as [-> | E]; [reflexivity|]). now subst.
Qed.

Lemma append_assoc (a b c : string) : ((a ++ b) ++ c = a ++ (b ++ c))%string.
Proof. induction a as [|x a IH]; simpl; [reflexivity | now rewrite IH]. Qed.

(** Reading one more digit after [k] digits. *)
Lemma read_digits_snoc (k : nat) :
  forall (s : string) (acc a d : Z) (c : ascii) (rest : string),
    Date.read_digits k s acc = Some (a, String c rest) ->
    digit_value 10 c = Some d ->
    Date.read_digits (S k) s acc = Some (a * 10 + d, rest).
Proof.
  induction k as [|k IH]; intros s acc a d c rest Hk Hc.
  - simpl in Hk. injection Hk as -> ->. simpl. now rewrite Hc.
  - change (Date.read_digits (S (S k)) s acc)
      with (match s with
            | String c0 rest0 =>
                match digit_value 10 c0 with
                | Some d0 => Date.read_digits (S k) rest0 (acc * 10 + d0)
                | None => None
                end
            | EmptyString => None
            end).
    simpl in Hk. destruct s as [|c0 rest0]; [discriminate|].
    destruct (digit_value 10 c0) as [d0|]; [|discriminate].
    now apply IH with (c := c).
Qed.

(** [read_digits] undoes [digits]. *)
Lemma read_digits_digits (k : nat) :
  forall (n acc : Z) (rest : string),
    Date.read_digits k (digits k n ++ rest) acc
    = Some (acc * 10 ^ Z.of_nat k + n mod 10 ^ Z.of_nat k, rest).
Proof.
  induction k as [|k IH]; intros n acc rest.
  - simpl. rewrite Z.mod_1_r. f_equal. f_equal. lia.
  - cbn [digits]. rewrite append_assoc. cbn [append].
    erewrite read_digits_snoc;
      [| apply IH | apply digit_value_digit_char; apply Z.mod_pos_bound; lia].
    f_equal. f_equal.
    rewrite Nat2Z.inj_succ, Z.pow_succ_r by lia.
    rewrite (Z.rem_mul_r n 10 (10 ^ Z.of_nat k)) by lia.
    lia.
Qed.

Lemma read_digits_small (k : nat) (n : Z) (rest : string) :
  0 <= n < 10 ^ Z.of_nat k ->
  Date.read_digits k (digits k n ++ rest) 0 = Some (n, rest).
Proof.
  intros H. rewrite read_digits_digits, Z.mod_small by exact H.
  reflexivity.
Qed.

(** *** The date of a day of the 400-year era *)

Ltac div_lia := Z.div_mod_to_equations; lia.

Section EraDay.
Variable doe : Z.
Hypothesis doe_range : 0 <= doe < 146097.

Let yoe := (doe - doe / 1460 + doe / 36524 - doe / 146096) / 365.
Let doy := doe - (365 * yoe + yoe / 4 - yoe / 100).
Let mp := (5 * doy + 2) / 153.

Lemma yoe_range : 0 <= yoe <= 399.
Proof. subst yoe. div_lia. Qed.

Lemma doy_range : 0 <= doy <= 365.
Proof. subst doy yoe. div_lia. Qed.

Lemma doy_leap : doy = 365 -> Date.is_leap (yoe + 1) = true.
Proof.
  intros H. unfold Date.is_leap.
  assert ((yoe + 1) mod 4 = 0
          /\ ((yoe + 1) mod 100 <> 0 \/ (yoe + 1) mod 400 = 0)) as (H4 & H100).
  { subst doy yoe. div_lia. }
  rewrite H4. simpl.
  destruct H100 as [H100|H400].
  - apply Z.eqb_neq in H100. now rewrite H100.
  - rewrite H400. simpl. apply orb_true_r.
Qed.

Lemma mp_range : 0 <= mp <= 11.
Proof. pose proof doy_range. subst mp. div_lia. Qed.
End EraDay.

Lemma civil_fields_ok (yoe doy mp : Z) :
  0 <= yoe <= 399 -> 0 <= doy <= 365 ->
  (doy = 365 -> Date.is_leap (yoe + 1) = true) ->
  mp = (5 * doy + 2) / 153 ->
  let m := if mp <? 10 then mp + 3 else mp - 9 in
  let y := yoe + (if m <=? 2 then 1 else 0) in
  let d := doy - (153 * mp + 2) / 5 + 1 in
  1 <= m <= 12
  /\ 1 <= d <= Date.days_in_month y m
  /\ Date.days_from_civil y m d
     = yoe * 365 + yoe / 4 - yoe / 100 + doy - 719468.
Proof.
  intros Hy Hd Hleap Hmp m y d.
  assert (Hcases : mp = 0 \/ mp = 1 \/ mp = 2 \/ mp = 3 \/ mp = 4 \/ mp = 5
                   \/ mp = 6 \/ mp = 7 \/ mp = 8 \/ mp = 9 \/ mp = 10 \/ mp = 11)
    by (subst mp; div_lia).
  assert (Hdiv : yoe / 400 = 0) by (apply Z.div_small; lia).
  assert (Hmod : yoe mod 400 = yoe) by (apply Z.mod_small; lia).
  unfold Date.days_from_civil, Date.days_in_month.
  repeat (destruct Hcases as [Hcases | Hcases]);
    subst m y d; rewrite Hcases in *;
    cbn -[Z.div Z.modulo Date.is_leap];
    repeat match goal with
      | |- context [Z.div (Zpos ?a) (Zpos ?b)] =>
          let v := eval vm_compute in (Z.div (Zpos a) (Zpos b)) in
          change (Z.div (Zpos a) (Zpos b)) with v
      end;
    try (replace (yoe + 0) with yoe by lia);
    try (replace (yoe + 1 - 1) with yoe by lia);
    rewrite ?Hdiv, ?Hmod.
  all: try (repeat split; div_lia).
  destruct (Z.eq_dec doy 365) as [E|E].
  - rewrite (Hleap E). repeat split; div_lia.
  - destruct (Date.is_leap (yoe + 1)); repeat split; div_lia.
Qed.

(** The date of day [doe] of an era is a date of the calendar, and
    [days_from_civil] leads back to the day. *)
Lemma civil_of_doe_ok (doe : Z) :
  0 <= doe < 146097 ->
  forall y m d, Date.civil_of_doe doe = (y, m, d) ->
  1 <= m <= 12
  /\ 1 <= d <= Date.days_in_month y m
  /\ Date.days_from_civil y m d = doe - 719468
  /\ 0 <= y <= 400
  /\ (doe < 146037 -> y <= 399).
Proof.
  intros Hdoe y m d E.
  pose proof (yoe_range doe Hdoe) as Hy.
  pose proof (doy_range doe Hdoe) as Hd.
  pose proof (doy_leap doe Hdoe) as Hleap.
  pose proof (mp_range doe Hdoe) as Hmp.
  set (yoe := (doe - doe / 1460 + doe / 36524 - doe / 146096) / 365) in *.
  set (doy := doe - (365 * yoe + yoe / 4 - yoe / 100)) in *.
  set (mp := (5 * doy + 2) / 153) in *.
  pose proof (civil_fields_ok yoe doy mp Hy Hd Hleap eq_refl) as Hok.
  cbv zeta in Hok. destruct Hok as (Hm & Hday & Hback).
  change (Date.civil_of_doe doe)
    with (yoe + (if (if mp <? 10 then mp + 3 else mp - 9) <=? 2 then 1 else 0),
          if mp <? 10 then mp + 3 else mp - 9,
          doy - (153 * mp + 2) / 5 + 1) in E.
  apply pair_equal_spec in E. destruct E as (E & Ed).
  apply pair_equal_spec in E. destruct E as (Ey & Em).
  subst y m d.
  split; [exact Hm|]. split; [exact Hday|]. split; [rewrite Hback; unfold doy; ring|].
  split.
  - destruct (_ <=? 2); lia.
  - intros Hlt.
    destruct ((if mp <? 10 then mp + 3 else mp - 9) <=? 2) eqn:Em; [|lia].
    assert (yoe <= 398); [|lia].
    apply Z.leb_le in Em.
    destruct (mp <? 10) eqn:E10; [apply Z.ltb_lt in E10; lia|].
    apply Z.ltb_ge in E10.
    subst mp doy. div_lia.
Qed.

Lemma is_leap_era (y e : Z) : Date.is_leap (y + 400 * e) = Date.is_leap y.
Proof.
  unfold Date.is_leap.
  replace ((y + 400 * e) mod 4) with (y mod 4) by div_lia.
  replace ((y + 400 * e) mod 100) with (y mod 100) by div_lia.
  replace ((y + 400 * e) mod 400) with (y mod 400) by div_lia.
  reflexivity.
Qed.

Lemma days_in_month_era (y e m : Z) :
  Date.days_in_month (y + 400 * e) m = Date.days_in_month y m.
Proof. unfold Date.days_in_month. now rewrite is_leap_era. Qed.

Lemma days_from_civil_era (y e m d : Z) :
  Date.days_from_civil (y + 400 * e) m d
  = Date.days_from_civil y m d + 146097 * e.
Proof.
  unfold Date.days_from_civil.
  destruct (m <=? 2).
  - replace ((y + 400 * e - 1) / 400) with ((y - 1) / 400 + e) by div_lia.
    replace ((y + 400 * e - 1) mod 400) with ((y - 1) mod 400) by div_lia.
    lia.
  - replace ((y + 400 * e) / 400) with (y / 400 + e) by div_lia.
    replace ((y + 400 * e) mod 400) with (y mod 400) by div_lia.
    lia.
Qed.

(** The date of a day number: a date of the calendar that
    [days_from_civil] maps back to the day; its year is in 0..9999 for
    the days from 1970-01-01 to 9999-12-31. *)
Lemma civil_from_days_ok (z : Z) :
  forall y m d, Date.civil_from_days z = (y, m, d) ->
  1 <= m <= 12
  /\ 1 <= d <= Date.days_in_month y m
  /\ Date.days_from_civil y m d = z
  /\ (0 <= z < 2932897 -> 0 <= y <= 9999).
Proof.
  intros y m d E. unfold Date.civil_from_days in E.
  assert (Hdoe : 0 <= (z + 719468) mod 146097 < 146097)
    by (apply Z.mod_pos_bound; lia).
  destruct (Date.civil_of_doe ((z + 719468) mod 146097)) as [[y0 m0] d0] eqn:E0.
  apply pair_equal_spec in E. destruct E as (E & <-).
  apply pair_equal_spec in E. destruct E as (<- & <-).
  destruct (civil_of_doe_ok _ Hdoe _ _ _ E0) as (Hm & Hd & Hback & Hy & Hlast).
  rewrite days_in_month_era, days_from_civil_era, Hback.
  split; [exact Hm|]. split; [exact Hd|]. split; [div_lia|].
  intros Hz.
  assert (4 <= (z + 719468) / 146097 <= 24) by div_lia.
  assert ((z + 719468) / 146097 = 24 -> (z + 719468) mod 146097 < 146037)
    by (intros E24; div_lia).
  lia.
Qed.

(** The time of day: hours, minutes, seconds and milliseconds of
    [ms], read back. *)
Lemma time_within_day (ms : Z) :
  0 <= ms < Date.msPerDay ->
  0 <= ms / 3600000 <= 23
  /\ 0 <= ms / 60000 mod 60 <= 59
  /\ 0 <= ms / 1000 mod 60 <= 59
  /\ 0 <= ms mod 1000 <= 999
  /\ ms / 3600000 * 3600000 + ms / 60000 mod 60 * 60000
       + ms / 1000 mod 60 * 1000 + ms mod 1000 = ms.
Proof. unfold Date.msPerDay. intros H. repeat split; div_lia. Qed.

Lemma expect_here (c : ascii) (rest : string) :
  Date.expect c (String c rest) = Some rest.
Proof. unfold Date.expect. now rewrite Ascii.eqb_refl. Qed.

(** [Date.parse] undoes [toISOString] on every time value from
    1970-01-01T00:00:00.000Z to 9999-12-31T23:59:59.999Z. *)
Lemma parse_toISOString (t : Z) :
  0 <= t < 253402300800000 ->
  Date.parse (Date.toISOString t) = Some t.
Proof.
  intros Ht. unfold Date.toISOString.
  destruct (Date.civil_from_days (t / Date.msPerDay)) as [[y m] d] eqn:E.
  destruct (civil_from_days_ok _ _ _ _ E) as (Hm & Hd & Hback & Hy).
  assert (Hday : 0 <= t / Date.msPerDay < 2932897)
    by (unfold Date.msPerDay; div_lia).
  specialize (Hy Hday).
  assert (Hms : 0 <= t mod Date.msPerDay < Date.msPerDay)
    by (apply Z.mod_pos_bound; reflexivity).
  destruct (time_within_day _ Hms) as (Hh & Hmi & Hs & Hl & Hsum).
  assert (Hdim : Date.days_in_month y m <= 31)
    by (unfold Date.days_in_month;
        repeat match goal with |- context [if ?b then _ else _] => destruct b end;
        lia).
  unfold Date.parse, Date.and_then.
  rewrite read_digits_small by (simpl; lia). cbn [append]. rewrite expect_here.
  rewrite read_digits_small by (simpl; lia). cbn [append]. rewrite expect_here.
  rewrite read_digits_small by (simpl; lia). cbn [append]. rewrite expect_here.
  rewrite read_digits_small by (simpl; lia). cbn [append]. rewrite expect_here.
  rewrite read_digits_small by (simpl; lia). cbn [append]. rewrite expect_here.
  rewrite read_digits_small by (simpl; lia). cbn [append]. rewrite expect_here.
  rewrite read_digits_small by (simpl; lia). cbn [append]. rewrite expect_here.
  repeat match goal with
    | |- context [?a <=? ?b] => rewrite (proj2 (Z.leb_le a b)) by lia
    end.
  simpl. f_equal. rewrite Hback.
  pose proof (Z.div_mod t Date.msPerDay). unfold Date.msPerDay in *. lia.
Qed.

(* ================================================================= *)
(** ** Properties of the health check and of start-up *)

(** C7: [/_health] answers 200 [{status:"ok", database:"connected",
    timestamp}] when [authenticate] succeeds and 503 [{status:"error",
    database:"disconnected", timestamp}] when it throws; in both cases
    the time stamp is the ISO rendering of the clock, which [Date.parse]
    reads back to the same instant. *)
Theorem health_reports_liveness
    (w : World) (st : State)
    (Hclock : 0 <= now w < 253402300800000) :
  exists timestamp,
    Date.parse timestamp = Some (now w)
    /\ fst (health w st)
       = Sent (match authenticate w with
               | Normal _ => json 200 (HealthBody "ok" "connected" timestamp)
               | Throw _ => json 503 (HealthBody "error" "disconnected" timestamp)
               end)
    /\ snd (health w st) = st.
Proof.
  exists (Date.toISOString (now w)).
  split; [now apply parse_toISOString|].
  unfold health. run_monad.
  destruct (authenticate w); simpl; auto.
Qed.

Lemma health_reports_liveness_witness :
  0 <= now Sample.world < 253402300800000
  /\ fst (health Sample.world (initial []))
     = Sent (json 200 (HealthBody "ok" "connected" "2026-11-02T20:34:56.789Z"))
  /\ fst (health (with_authenticate Sample.world (Throw "ECONNREFUSED")) (initial []))
     = Sent (json 503 (HealthBody "error" "disconnected" "2026-11-02T20:34:56.789Z"))
  /\ exists timestamp,
       Date.parse timestamp = Some (now Sample.world)
       /\ fst (health Sample.world (initial []))
          = Sent (json 200 (HealthBody "ok" "connected" timestamp)).
Proof.
  split; [simpl; lia|]. split; [reflexivity|]. split; [reflexivity|].
  destruct (health_reports_liveness Sample.world (initial []))
    as (timestamp & Hparse & Hout & _); [simpl; lia|].
  exists timestamp. split; [exact Hparse | exact Hout].
Defined.

Ltac run_startup :=
  unfold startup, startup_try, try_catch, bind_try, lift, bind, ret,
    console_log, console_error, emit, set_routes, listen, process_exit;
  cbn -[listen_outcome].

(** C6: in production mode, when the secret cannot be fetched or is
    empty, or when [authenticate] throws, start-up logs the error with
    [console.error], registers no route and never calls [app.listen];
    it then returns from the [catch] block without ending the process. *)
Theorem startup_failure_is_logged_not_fatal
    (w : World) (rows : list Visit)
    (Hmode : NODE_ENV w = Some "production")
    (Hfail : (exists message, getSecret w "DATABASE_URL" = Throw message)
             \/ getSecret w "DATABASE_URL" = Normal ""
             \/ (exists message, authenticate w = Throw message)) :
  let st := snd (startup w (initial rows)) in
  listening st = None
  /\ routes st = []
  /\ (exists error,
        console_errors (effects st) = [["Failed to initialize application:"; error]])
  /\ exit_code st = None.
Proof.
  intros st. subst st. run_startup. rewrite Hmode. simpl.
  destruct Hfail as [(message & E) | [E | (message & E)]].
  - rewrite E. simpl. eauto 6.
  - rewrite E. simpl. eauto 6.
  - destruct (getSecret w "DATABASE_URL") as [secret|m]; simpl; [|eauto 6].
    destruct (secret =? "")%string; simpl; [eauto 6|].
    destruct (new_Sequelize w (Some secret)); simpl; [|eauto 6].
    rewrite E. simpl. eauto 6.
Qed.

Lemma startup_failure_is_logged_not_fatal_witness :
  let w := with_getSecret Sample.world (fun _ => Normal "") in
  NODE_ENV w = Some "production"
  /\ getSecret w "DATABASE_URL" = Normal ""
  /\ listening (snd (startup w (initial []))) = None
  /\ exit_code (snd (startup w (initial []))) = None.
Proof.
  intros w.
  split; [reflexivity|]. split; [reflexivity|].
  destruct (startup_failure_is_logged_not_fatal w [] eq_refl
              (or_intror (or_introl eq_refl))) as (H1 & _ & _ & H2).
  split; [exact H1 | exact H2].
Defined.

(** When every start-up step succeeds the listener is bound. *)
Lemma startup_success_listens (w : World) (rows : list Visit) (secret : string) :
  NODE_ENV w = Some "production" ->
  getSecret w "DATABASE_URL" = Normal secret -> secret <> "" ->
  new_Sequelize w (Some secret) = Normal tt ->
  authenticate w = Normal tt -> sync w = Normal tt ->
  listen_outcome w (or_string (PORT w) "8080") = Bound ->
  listening (snd (startup w (initial rows))) = Some (or_string (PORT w) "8080").
Proof.
  intros Hmode Hs Hne Hn Ha Hy Hb. run_startup.
  rewrite Hmode. simpl. rewrite Hs. simpl.
  apply String.eqb_neq in Hne. rewrite Hne. simpl.
  rewrite Hn. simpl. rewrite Ha. simpl. rewrite Hy. simpl.
  rewrite Hb. reflexivity.
Qed.

(** The shutdown path ends the process: status 0 when the store closes,
    status 1 when closing throws. *)
Lemma shutdown_exit_code (w : World) (st : State) :
  exit_code (snd (on_SIGTERM w st))
  = Some (match close w with Normal _ => 0 | Throw _ => 1 end).
Proof.
  unfold on_SIGTERM, try_catch, bind_try, lift, bind, ret, console_log,
    console_error, emit, server_close, process_exit. simpl.
  destruct (close w); reflexivity.
Qed.

(* ================================================================= *)
(** ** Integers as Numbers *)

Lemma round_half_even_whole (p : Z) : round_half_even p 1 = p.
Proof.
  unfold round_half_even. rewrite Z.mod_1_r, Z.div_1_r. reflexivity.
Qed.

Lemma round_half_even_bounds (p q : Z) :
  0 < q -> p / q <= round_half_even p q <= p / q + 1.
Proof.
  intros Hq. unfold round_half_even.
  destruct (2 * (p mod q) <? q); [lia|].
  destruct (q <? 2 * (p mod q)); [lia|].
  destruct (Z.even (p / q)); lia.
Qed.

Lemma binade_integer (p : Z) : 0 < p -> binade p 1 = Z.log2 p.
Proof.
  intros Hp. unfold binade, shift.
  change (Z.log2 1) with 0. rewrite Z.sub_0_r.
  pose proof (Z.log2_nonneg p) as Hg.
  destruct (Z.leb_spec 0 (Z.log2 p)) as [_|]; [|lia].
  pose proof (Z.log2_spec p Hp) as (Hlo & _).
  destruct (Z.leb_spec (1 * 2 ^ Z.log2 p) p) as [_|]; [reflexivity | lia].
Qed.

(** An integer below 2^53 is a double. *)
Lemma to_double_small (p : Z) :
  0 < p < 2 ^ 53 ->
  to_double p 1 = Finite (p * 2 ^ (52 - Z.log2 p)) (Z.log2 p - 52).
Proof.
  intros Hp. unfold to_double.
  destruct (Z.eqb_spec p 0) as [|_]; [lia|].
  rewrite binade_integer by lia.
  pose proof (Z.log2_nonneg p) as Hg.
  pose proof (Z.log2_spec p ltac:(lia)) as (Hlo & Hhi).
  assert (Hg52 : Z.log2 p <= 52)
    by (apply Z.lt_succ_r; apply Z.log2_lt_pow2; lia).
  rewrite Z.max_l by lia.
  set (g := Z.log2 p) in *.
  assert (Hpow : 2 ^ 52 = 2 ^ g * 2 ^ (52 - g))
    by (rewrite <- Z.pow_add_r by lia; f_equal; lia).
  assert (Hpos : 0 < 2 ^ (52 - g)) by (apply Z.pow_pos_nonneg; lia).
  assert (Hm : 2 ^ 52 <= p * 2 ^ (52 - g) < 2 ^ 53).
  { replace (2 ^ 53) with (2 ^ (Z.succ g) * 2 ^ (52 - g))
      by (rewrite <- Z.pow_add_r by lia; f_equal; lia).
    rewrite Hpow. split; [apply Z.mul_le_mono_nonneg_r; lia|].
    apply Z.mul_lt_mono_pos_r; lia. }
  unfold shift.
  destruct (Z.leb_spec 0 (g - 52)) as [H0|H0].
  - assert (g = 52) by lia.
    replace (g - 52) with 0 in * by lia. replace (52 - g) with 0 in * by lia.
    change (1 * 2 ^ 0) with 1. rewrite round_half_even_whole.
    change (2 ^ 0) with 1 in *. rewrite Z.mul_1_r in *.
    destruct (Z.eqb_spec p 0); [lia|].
    destruct (Z.eqb_spec p (2 ^ 53)); [lia|]. reflexivity.
  - replace (- (g - 52)) with (52 - g) by lia.
    rewrite round_half_even_whole.
    destruct (Z.eqb_spec (p * 2 ^ (52 - g)) 0); [lia|].
    destruct (Z.eqb_spec (p * 2 ^ (52 - g)) (2 ^ 53)); [lia|].
    destruct (Z.ltb_spec 971 (g - 52)); [lia | reflexivity].
Qed.

Lemma integral_of_Z_exact (z : Z) :
  - 2 ^ 53 <= z <= 2 ^ 53 -> integral_of_Z z = Int z.
Proof.
  intros Hz. unfold integral_of_Z.
  destruct (Z.eq_dec z 0) as [->|Hnz]; [reflexivity|].
  destruct (Z.eq_dec (Z.abs z) (2 ^ 53)) as [E|Hne].
  { rewrite E. change (to_double (2 ^ 53) 1) with (Finite (2 ^ 52) 1).
    cbn [Z.leb Z.compare]. change (2 ^ 52 * 2 ^ 1) with (2 ^ 53).
    f_equal. lia. }
  rewrite to_double_small by lia.
  pose proof (Z.log2_nonneg (Z.abs z)) as Hg.
  assert (Hg52 : Z.log2 (Z.abs z) <= 52)
    by (apply Z.lt_succ_r; apply Z.log2_lt_pow2; lia).
  f_equal.
  destruct (Z.leb_spec 0 (Z.log2 (Z.abs z) - 52)) as [H0|H0].
  - replace (Z.log2 (Z.abs z) - 52) with 0 by lia.
    replace (52 - Z.log2 (Z.abs z)) with 0 by lia.
    change (2 ^ 0) with 1. lia.
  - replace (- (Z.log2 (Z.abs z) - 52)) with (52 - Z.log2 (Z.abs z)) by lia.
    rewrite Z.div_mul by (apply Z.pow_nonzero; lia). lia.
Qed.

(** The double nearest to an integer from 2^53 on is no smaller than
    2^53, and finite below 2^1000. *)
Lemma to_double_large (p : Z) :
  2 ^ 53 <= p ->
  (to_double p 1 = Infinite /\ 2 ^ 1000 <= p)
  \/ exists m e, to_double p 1 = Finite m e /\ 2 ^ 52 <= m /\ 1 <= e
       /\ m * 2 ^ e <= 2 * p.
Proof.
  intros Hp. unfold to_double.
  assert (H0 : 0 < p) by lia.
  destruct (Z.eqb_spec p 0) as [|_]; [lia|].
  rewrite binade_integer by lia.
  pose proof (Z.log2_spec p H0) as (Hlo & Hhi).
  assert (Hg : 53 <= Z.log2 p) by (apply Z.log2_le_pow2; lia).
  rewrite Z.max_l by lia.
  set (g := Z.log2 p) in *.
  unfold shift.
  destruct (Z.leb_spec 0 (g - 52)) as [_|]; [|lia].
  rewrite Z.mul_1_l.
  assert (Hq : 0 < 2 ^ (g - 52)) by (apply Z.pow_pos_nonneg; lia).
  pose proof (round_half_even_bounds p (2 ^ (g - 52)) Hq) as Hm.
  assert (Hf : 2 ^ 52 <= p / 2 ^ (g - 52)).
  { apply Z.div_le_lower_bound; [lia|].
    rewrite <- Z.pow_add_r by lia. replace (g - 52 + 52) with g by lia. lia. }
  assert (Hup : round_half_even p (2 ^ (g - 52)) * 2 ^ (g - 52) <= 2 * p).
  { assert (Hqp : 2 ^ (g - 52) <= p).
    { eapply Z.le_trans; [|exact Hlo]. apply Z.pow_le_mono_r; lia. }
    pose proof (Z.mul_div_le p (2 ^ (g - 52)) Hq) as Hd.
    nia. }
  set (m := round_half_even p (2 ^ (g - 52))) in *.
  destruct (Z.eqb_spec m 0) as [|_]; [lia|].
  assert (Hbig : 971 < g - 52 -> 2 ^ 1000 <= p).
  { intros Hlt. eapply Z.le_trans; [|exact Hlo].
    apply Z.pow_le_mono_r; lia. }
  destruct (Z.eqb_spec m (2 ^ 53)) as [E|_].
  - destruct (Z.ltb_spec 971 (g - 52 + 1)) as [Hlt|_].
    + left. split; [reflexivity|].
      eapply Z.le_trans; [|exact Hlo]. apply Z.pow_le_mono_r; lia.
    + right. exists (2 ^ 52), (g - 52 + 1). split; [reflexivity|].
      split; [lia|]. split; [lia|].
      rewrite Z.pow_add_r by lia. change (2 ^ 1) with 2.
      replace (2 ^ 52 * (2 ^ (g - 52) * 2)) with (m * 2 ^ (g - 52))
        by (rewrite E; change (2 ^ 53) with (2 ^ 52 * 2); ring).
      exact Hup.
  - destruct (Z.ltb_spec 971 (g - 52)) as [Hlt|_].
    + left. split; [reflexivity | auto].
    + right. exists m, (g - 52). split; [reflexivity|]. lia.
Qed.

Lemma integral_of_Z_large (z : Z) :
  2 ^ 53 <= z ->
  (integral_of_Z z = PlusInfinity /\ 2 ^ 1000 <= z)
  \/ exists n, integral_of_Z z = Int n /\ 2 ^ 53 <= n <= 2 * z.
Proof.
  intros Hz. unfold integral_of_Z.
  rewrite Z.abs_eq by lia.
  destruct (to_double_large z Hz)
    as [(E & Hbig) | (m & e & E & Hm & He & Hup)]; rewrite E.
  - left. destruct (Z.ltb_spec z 0); [lia | auto].
  - right. eexists. split; [reflexivity|].
    destruct (Z.leb_spec 0 e) as [_|]; [|lia].
    rewrite Z.sgn_pos by lia. rewrite Z.mul_1_l.
    split; [|exact Hup].
    assert (2 ^ 1 <= 2 ^ e) by (apply Z.pow_le_mono_r; lia).
    change (2 ^ 53) with (2 ^ 52 * 2 ^ 1).
    apply Z.mul_le_mono_nonneg; lia.
Qed.

(** A positive integer stays positive as a Number. *)
Lemma integral_of_Z_positive (z : Z) :
  1 <= z ->
  integral_of_Z z = PlusInfinity \/ exists n, integral_of_Z z = Int n /\ 1 <= n.
Proof.
  intros Hz.
  destruct (Z.le_gt_cases z (2 ^ 53)) as [Hle|Hgt].
  - right. exists z. split; [apply integral_of_Z_exact; lia | lia].
  - destruct (integral_of_Z_large z ltac:(lia)) as [(E & _) | (n & E & Hn)].
    + now left.
    + right. exists n. split; [exact E | lia].
Qed.

(** *** The quotient of two integers as a Number *)

Lemma round_half_even_near (p q : Z) :
  0 < q -> - q <= 2 * (round_half_even p q * q - p) <= q.
Proof.
  intros Hq. unfold round_half_even.
  pose proof (Z.div_mod p q ltac:(lia)) as Hdm.
  pose proof (Z.mod_pos_bound p q Hq) as Hr.
  destruct (Z.ltb_spec (2 * (p mod q)) q); [nia|].
  destruct (Z.ltb_spec q (2 * (p mod q))); [nia|].
  destruct (Z.even (p / q)); nia.
Qed.

Lemma binade_lower (p q : Z) :
  0 < p -> 0 < q ->
  let (p', q') := shift 2 p q (binade p q) in q' <= p'.
Proof.
  intros Hp Hq. unfold binade.
  pose proof (Z.log2_spec p Hp) as (Hpl & Hph).
  pose proof (Z.log2_spec q Hq) as (Hql & Hqh).
  pose proof (Z.log2_nonneg p) as Hp0.
  pose proof (Z.log2_nonneg q) as Hq0.
  set (lp := Z.log2 p) in *. set (lq := Z.log2 q) in *.
  destruct (shift 2 p q (lp - lq)) as (p1, q1) eqn:E.
  destruct (Z.leb_spec q1 p1) as [Hle|Hgt]; [now rewrite E|].
  unfold shift.
  destruct (Z.leb_spec 0 (lp - lq - 1)) as [H0|H0].
  - assert (Hpow : 2 ^ lp = 2 ^ Z.succ lq * 2 ^ (lp - lq - 1))
      by (rewrite <- Z.pow_add_r by lia; f_equal; lia).
    assert (0 < 2 ^ (lp - lq - 1)) by (apply Z.pow_pos_nonneg; lia).
    nia.
  - assert (Hpow : 2 ^ Z.succ lq = 2 ^ lp * 2 ^ (- (lp - lq - 1)))
      by (rewrite <- Z.pow_add_r by lia; f_equal; lia).
    assert (0 < 2 ^ (- (lp - lq - 1))) by (apply Z.pow_pos_nonneg; lia).
    nia.
Qed.

Lemma binade_range (p q : Z) :
  1 <= p <= 2 ^ 53 -> 1 <= q <= 100 -> -7 <= binade p q <= 53.
Proof.
  intros Hp Hq.
  pose proof (Z.log2_nonneg p) as Hp0.
  pose proof (Z.log2_nonneg q) as Hq0.
  assert (Z.log2 p <= 53)
    by (change 53 with (Z.log2 (2 ^ 53)); apply Z.log2_le_mono; lia).
  assert (Z.log2 q < 7) by (apply Z.log2_lt_pow2; lia).
  unfold binade. destruct (shift 2 p q _) as (p1, q1).
  destruct (q1 <=? p1); lia.
Qed.

Lemma ceiling_div_unique (m K c : Z) :
  0 < K -> (c - 1) * K < m <= c * K -> - ((- m) / K) = c.
Proof.
  intros HK Hm.
  pose proof (Z.div_mod (- m) K ltac:(lia)) as Hdm.
  pose proof (Z.mod_pos_bound (- m) K HK) as Hr.
  nia.
Qed.

Lemma ceiling_of_quotient (p q c : Z) :
  1 <= p <= 2 ^ 53 -> 1 <= q <= 100 -> (c - 1) * q < p <= c * q ->
  ceiling (to_double p q) = Some c.
Proof.
  intros Hp Hq Hc.
  assert (Hc1 : 1 <= c) by nia.
  unfold to_double. destruct (Z.eqb_spec p 0) as [|_]; [lia|].
  pose proof (binade_range p q Hp Hq) as Hb.
  pose proof (binade_lower p q ltac:(lia) ltac:(lia)) as Hlow.
  set (b := binade p q) in *.
  rewrite Z.max_l by lia.
  assert (Hlow0 : 0 <= b -> q * 2 ^ b <= p).
  { intros H0. unfold shift in Hlow.
    now rewrite (proj2 (Z.leb_le 0 b) H0) in Hlow. }
  clear Hlow. unfold shift.
  destruct (Z.leb_spec 0 (b - 52)) as [He|He].
  - specialize (Hlow0 ltac:(lia)).
    assert (Hb' : b = 52 \/ b = 53) by lia.
    destruct Hb' as [Eb | Eb]; rewrite Eb in *; clear Eb.
    + change (52 - 52) with 0. change (2 ^ 0) with 1. rewrite Z.mul_1_r.
      assert (Hdiv : p = c * q).
      { assert (Hq' : q = 1 \/ q = 2) by lia.
        destruct Hq' as [-> | ->]; lia. }
      pose proof (round_half_even_near p q ltac:(lia)) as Hn.
      assert (Hm : round_half_even p q = c) by nia.
      rewrite Hm.
      destruct (Z.eqb_spec c 0) as [|_]; [lia|].
      destruct (Z.eqb_spec c (2 ^ 53)) as [E|_].
      * rewrite E. reflexivity.
      * cbn -[Z.pow Z.mul]. change (2 ^ 0) with 1. f_equal; lia.
    + assert (q = 1 /\ p = 2 ^ 53) as (-> & ->) by lia.
      assert (c = 2 ^ 53) as -> by lia. reflexivity.
  - set (k := - (b - 52)) in *.
    assert (Hk : 1 <= k <= 59) by lia.
    assert (HK : 2 <= 2 ^ k)
      by (change 2 with (2 ^ 1) at 1; apply Z.pow_le_mono_r; lia).
    assert (Hq2 : q <= 2 * 2 ^ k /\ (q = 2 * 2 ^ k -> p = c * q)).
    { destruct (Z.le_gt_cases 0 b) as [Hb0|Hb0].
      - specialize (Hlow0 Hb0).
        assert (Hpow : 2 ^ 53 = 2 ^ b * (2 * 2 ^ k)).
        { change 2 with (2 ^ 1) at 3. rewrite <- !Z.pow_add_r by lia.
          f_equal. lia. }
        assert (0 < 2 ^ b) by (apply Z.pow_pos_nonneg; lia).
        split; [nia|]. intros E.
        assert (Ep : p = q * 2 ^ b) by (rewrite E in *; lia).
        assert (Ec : c = 2 ^ b) by (rewrite Ep in Hc; nia).
        rewrite Ep, Ec. ring.
      - assert (2 ^ 53 <= 2 ^ k) by (apply Z.pow_le_mono_r; lia).
        split; [lia|]. intros E. lia. }
    destruct Hq2 as (Hq2 & Hq2').
    pose proof (round_half_even_near (p * 2 ^ k) q ltac:(lia)) as Hn.
    set (K := 2 ^ k) in *.
    set (m := round_half_even (p * K) q) in *.
    assert (Hm : (c - 1) * K < m <= c * K).
    { split.
      - destruct (Z.eq_dec p (c * q)) as [E|Hne]; [subst p; nia|].
        destruct (Z.lt_ge_cases ((c - 1) * K) m) as [|Hle]; [assumption|].
        exfalso. assert (q = 2 * K) by nia. auto.
      - destruct (Z.le_gt_cases m (c * K)) as [|Hgt]; [assumption|].
        exfalso. nia. }
    destruct (Z.eqb_spec m 0) as [|_]; [nia|].
    destruct (Z.eqb_spec m (2 ^ 53)) as [E|_].
    + destruct (Z.ltb_spec 971 (b - 52 + 1)) as [|_]; [lia|].
      unfold ceiling.
      destruct (Z.leb_spec 0 (b - 52 + 1)) as [H1|H1].
      * assert (k = 1) by lia.
        assert (K = 2) by (subst K; replace k with 1 by lia; reflexivity).
        replace (b - 52 + 1) with 0 by lia. change (2 ^ 0) with 1.
        f_equal. lia.
      * f_equal. apply ceiling_div_unique.
        -- apply Z.pow_pos_nonneg; lia.
        -- assert (HK' : K = 2 * 2 ^ (- (b - 52 + 1))).
           { subst K. change 2 with (2 ^ 1) at 2.
             rewrite <- Z.pow_add_r by lia. f_equal. lia. }
           change (2 ^ 53) with (2 * 2 ^ 52) in E. nia.
    + destruct (Z.ltb_spec 971 (b - 52)) as [|_]; [lia|].
      unfold ceiling.
      destruct (Z.leb_spec 0 (b - 52)) as [|_]; [lia|].
      f_equal. apply ceiling_div_unique; [lia | exact Hm].
Qed.

(* ================================================================= *)
(** ** Properties of the log listing *)

(** A decimal digit is no white space, sign or radix letter. *)
Lemma decimal_digit_char (c : ascii) (d : Z) :
  digit_value 10 c = Some d ->
  is_whitespace c = false
  /\ (c =? "-")%char = false /\ (c =? "+")%char = false
  /\ (c =? "x")%char = false /\ (c =? "X")%char = false.
Proof.
  destruct c as [b0 b1 b2 b3 b4 b5 b6 b7].
  destruct b0, b1, b2, b3, b4, b5, b6, b7; vm_compute;
    intros H; try discriminate H; repeat split.
Qed.

Lemma decimal_parse_digits (s : string) :
  forall (acc n : Z) (seen : bool),
    Spec.decimal s acc = Some n ->
    s <> "" \/ seen = true ->
    parse_digits 10 s seen acc = Some n.
Proof.
  induction s as [|c rest IH]; intros acc n seen H Hseen.
  - simpl in *. destruct Hseen as [Hne | ->]; [congruence | exact H].
  - simpl in *. destruct (digit_value 10 c) as [d|]; [|discriminate].
    apply IH; [exact H | now right].
Qed.

(** On text that holds decimal digits only, no radix prefix is found. *)
Lemma decimal_no_prefix (s : string) (acc n : Z) :
  Spec.decimal s acc = Some n ->
  match s with
  | String c0 (String c1 rest) =>
      if (c0 =? "0")%char && ((c1 =? "x")%char || (c1 =? "X")%char)
      then (16, rest) else (10, s)
  | _ => (10, s)
  end = (10, s).
Proof.
  destruct s as [|c0 [|c1 rest]]; try reflexivity.
  simpl. destruct (digit_value 10 c0) as [d0|]; [|discriminate].
  destruct (digit_value 10 c1) as [d1|] eqn:E1; [|discriminate].
  apply decimal_digit_char in E1. destruct E1 as (_ & _ & _ & -> & ->).
  now rewrite andb_false_r.
Qed.

Lemma sort_recent_first (rows : list Visit) :
  Permutation rows (RecentSort.sort rows)
  /\ StronglySorted newer_or_same (RecentSort.sort rows).
Proof.
  split; [apply RecentSort.Permuted_sort|].
  assert (Htrans : Transitive (fun a b : Visit =>
                                 is_true (visited_at b <=? visited_at a))).
  { intros a b c Hab Hbc. unfold is_true in *.
    apply Z.leb_le in Hab, Hbc. apply Z.leb_le. lia. }
  pose proof (RecentSort.StronglySorted_sort rows Htrans) as Hs.
  induction Hs as [|a l Hl IH Hall]; constructor; [exact IH|].
  apply Forall_forall. intros b Hb.
  pose proof (proj1 (Forall_forall _ _) Hall b Hb) as Hab.
  unfold newer_or_same. now apply Z.leb_le.
Qed.

Lemma sort_length (rows : list Visit) :
  List.length (RecentSort.sort rows) = List.length rows.
Proof.
  symmetry. apply Permutation_length. apply RecentSort.Permuted_sort.
Qed.

(** On an integer numeral [parseInt] returns the Number nearest to the
    integer it denotes. *)
Lemma parseInt_integer_literal (s : string) (n : Z) :
  Spec.integer_literal s = Some n -> parseInt_string s = integral_of_Z n.
Proof.
  unfold Spec.integer_literal, parseInt_string.
  destruct s as [|c rest]; [discriminate|].
  destruct (c =? "-")%char eqn:Eminus.
  - apply Ascii.eqb_eq in Eminus. subst c.
    destruct rest as [|c1 rest1]; [discriminate|].
    destruct (Spec.decimal (String c1 rest1) 0) as [m|] eqn:Em; [|discriminate].
    intros H. injection H as <-.
    change (trim_start (String "-" (String c1 rest1)))
      with (String "-"%char (String c1 rest1)).
    cbn [Ascii.eqb Bool.eqb orb]. cbv iota beta.
    rewrite (decimal_no_prefix _ _ _ Em).
    rewrite (decimal_parse_digits _ _ _ false Em) by (left; discriminate).
    f_equal; lia.
  - intros H.
    assert (Hc : exists d, digit_value 10 c = Some d).
    { simpl in H. destruct (digit_value 10 c) as [d|]; [eauto | discriminate]. }
    destruct Hc as (d & Hd).
    apply decimal_digit_char in Hd. destruct Hd as (Hws & _ & Hplus & _).
    cbn [trim_start]. rewrite Hws, Eminus, Hplus. cbn [orb].
    rewrite (decimal_no_prefix _ _ _ H).
    rewrite (decimal_parse_digits _ _ _ false H) by (left; discriminate).
    f_equal; lia.
Qed.

(** The default of a parameter is parsed back from its text. *)
Lemma parseInt_default_page : parseInt (with_default None 1) = Normal (Int 1).
Proof. reflexivity. Qed.

Lemma parseInt_default_limit : parseInt (with_default None 10) = Normal (Int 10).
Proof. reflexivity. Qed.

(** A parameter that is an integer numeral of magnitude at most 2^53, or
    absent, is parsed to the integer it stands for. *)
Lemma integer_parameter_parses (q : option value) (d n : Z) :
  d = 1 \/ d = 10 ->
  Spec.integer_parameter q d = Some n ->
  - 2 ^ 53 <= n <= 2 ^ 53 ->
  parseInt (with_default q d) = Normal (Int n).
Proof.
  intros Hd. unfold Spec.integer_parameter.
  destruct q as [[| | | |s| |]|]; try discriminate.
  - intros E Hn. simpl. unfold parseInt. simpl.
    rewrite (parseInt_integer_literal _ _ E).
    now rewrite integral_of_Z_exact.
  - intros E _. injection E as <-.
    destruct Hd as [-> | ->]; reflexivity.
Qed.

Lemma page_test (pageNum : integral) :
  isNaN pageNum || lt pageNum 1 = false <-> page_accepted pageNum.
Proof.
  unfold page_accepted. destruct pageNum as [|n| |]; simpl.
  - split; [discriminate | intros [H | (m & E & _)]; discriminate].
  - rewrite Z.ltb_ge. split; [eauto|].
    intros [H | (m & E & H)]; [discriminate | injection E as ->; exact H].
  - split; [auto | reflexivity].
  - split; [discriminate | intros [H | (m & E & _)]; discriminate].
Qed.

Lemma limit_test (limitNum : integral) :
  isNaN limitNum || lt limitNum 1 || gt limitNum 100 = false
  <-> limit_accepted limitNum.
Proof.
  unfold limit_accepted. destruct limitNum as [|n| |]; simpl.
  - split; [discriminate | intros (m & E & _); discriminate].
  - rewrite orb_false_iff, Z.ltb_ge, Z.ltb_ge.
    split; [intros (H1 & H2); eauto | intros (m & E & H); injection E as ->; lia].
  - split; [discriminate | intros (m & E & _); discriminate].
  - split; [discriminate | intros (m & E & _); discriminate].
Qed.

(** What the handler's test refuses: NaN and the Numbers below 1. *)
Lemma page_refused (pageNum : integral) :
  ~ page_accepted pageNum
  <-> pageNum = NaN \/ pageNum = MinusInfinity
      \/ exists n, pageNum = Int n /\ n < 1.
Proof.
  unfold page_accepted. destruct pageNum as [|n| |].
  - split; [auto | intros _ [H | (m & E & _)]; discriminate].
  - split.
    + intros H. right. right. exists n. split; [reflexivity|].
      destruct (Z.lt_ge_cases n 1) as [Hlt|Hge]; [exact Hlt|].
      exfalso. apply H. right. exists n. split; [reflexivity | lia].
    + intros [H | [H | (m & E & Hm)]]; try discriminate.
      injection E as ->. intros [H | (k & E & Hk)]; [discriminate|].
      injection E as ->. lia.
  - split; [intros H; exfalso; apply H; now left|].
    intros [H | [H | (m & E & _)]]; discriminate.
  - split; [auto | intros _ [H | (m & E & _)]; discriminate].
Qed.

Lemma limit_refused (limitNum : integral) :
  ~ limit_accepted limitNum
  <-> limitNum = NaN \/ limitNum = MinusInfinity \/ limitNum = PlusInfinity
      \/ exists n, limitNum = Int n /\ (n < 1 \/ 100 < n).
Proof.
  unfold limit_accepted. destruct limitNum as [|n| |].
  - split; [auto | intros _ (m & E & _); discriminate].
  - split.
    + intros H. right. right. right. exists n. split; [reflexivity|].
      destruct (Z.lt_ge_cases n 1) as [Hlt|Hge]; [now left|].
      destruct (Z.lt_ge_cases 100 n) as [Hgt|Hle]; [now right|].
      exfalso. apply H. exists n. split; [reflexivity | lia].
    + intros [H | [H | [H | (m & E & Hm)]]]; try discriminate.
      injection E as ->. intros (k & E & Hk). injection E as ->. lia.
  - split; [auto | intros _ (m & E & _); discriminate].
  - split; [auto | intros _ (m & E & _); discriminate].
Qed.

(** A parameter the specification calls valid passes the handler's test. *)
Lemma valid_page_accepted (q : option value) :
  Spec.valid_page q = true ->
  exists pageNum,
    parseInt (with_default q 1) = Normal pageNum /\ page_accepted pageNum.
Proof.
  unfold Spec.valid_page, Spec.integer_parameter.
  destruct q as [[| | | |s| |]|]; try discriminate.
  - destruct (Spec.integer_literal s) as [n|] eqn:E; [|discriminate].
    intros H. apply Z.leb_le in H. exists (integral_of_Z n). split.
    + simpl. unfold parseInt. simpl. now rewrite (parseInt_integer_literal _ _ E).
    + unfold page_accepted.
      destruct (integral_of_Z_positive n H) as [-> | (m & -> & Hm)]; eauto.
  - intros _. exists (Int 1). split; [reflexivity|].
    right. exists 1. split; [reflexivity | lia].
Qed.

Lemma valid_limit_accepted (q : option value) :
  Spec.valid_limit q = true ->
  exists n, parseInt (with_default q 10) = Normal (Int n) /\ 1 <= n <= 100.
Proof.
  unfold Spec.valid_limit, Spec.integer_parameter.
  destruct q as [[| | | |s| |]|]; try discriminate.
  - destruct (Spec.integer_literal s) as [n|] eqn:E; [|discriminate].
    intros H. apply andb_prop in H. destruct H as (H1 & H2).
    apply Z.leb_le in H1, H2. exists n. split; [|lia].
    simpl. unfold parseInt. simpl. rewrite (parseInt_integer_literal _ _ E).
    now rewrite integral_of_Z_exact by lia.
  - intros _. exists 10. split; [reflexivity | lia].
Qed.

Ltac run_logs :=
  unfold try_catch, bind_try, bind, ret, Visit_findAndCountAll,
    console_error, emit; cbn -[row_count multiply subtract].

Lemma row_count_Int (v : Z) :
  0 <= v <= bigint_max -> row_count (Int v) = Some v.
Proof.
  intros H. unfold row_count.
  destruct (Z.leb_spec 0 v); [|lia].
  destruct (Z.leb_spec v bigint_max); [reflexivity | lia].
Qed.

(** The offset of a page that is no integer names no row count. *)
Lemma infinite_page_offset (limit : Z) :
  1 <= limit ->
  row_count (multiply (subtract PlusInfinity (Int 1)) (Int limit)) = None.
Proof.
  intros H. simpl. rewrite Z.sgn_pos by lia. reflexivity.
Qed.

(** The offset of a page up to 2^53: [(page - 1) * limit] as long as that
    is at most 2^53, and a Number from 2^53 on beyond. *)
Lemma offset_of_page (page limit : Z) :
  1 <= page <= 2 ^ 53 -> 1 <= limit <= 100 ->
  exists offset,
    row_count (multiply (subtract (Int page) (Int 1)) (Int limit)) = Some offset
    /\ (offset = (page - 1) * limit
        \/ (2 ^ 53 <= offset /\ 2 ^ 53 < (page - 1) * limit)).
Proof.
  intros Hp Hl. cbn [subtract].
  rewrite integral_of_Z_exact by lia. cbn [multiply].
  destruct (Z.le_gt_cases ((page - 1) * limit) (2 ^ 53)) as [Hle|Hgt].
  - exists ((page - 1) * limit).
    rewrite integral_of_Z_exact by nia.
    split; [|now left]. apply row_count_Int. unfold bigint_max. nia.
  - destruct (integral_of_Z_large ((page - 1) * limit) ltac:(lia))
      as [(_ & Hbig) | (n & E & Hn)].
    + exfalso. assert ((page - 1) * limit <= 2 ^ 53 * 100) by nia. lia.
    + exists n. rewrite E. split; [|right; lia].
      apply row_count_Int. unfold bigint_max.
      assert ((page - 1) * limit <= 2 ^ 53 * 100) by nia. lia.
Qed.

(** The run of [/api/logs] on parameters that pass validation. *)
Lemma logs_accepted_run
    (w : World) (req : Request) (st : State) (pageNum : integral) (limit : Z) :
  parseInt (with_default (query_page req) 1) = Normal pageNum ->
  parseInt (with_default (query_limit req) 10) = Normal (Int limit) ->
  page_accepted pageNum -> 1 <= limit <= 100 ->
  logs w req st
  = match findAndCountAll w with
    | Normal _ =>
        match row_count (multiply (subtract pageNum (Int 1)) (Int limit)) with
        | Some offset =>
            (Sent (json 200
               (LogsBody (Z.of_nat (List.length (table st))) (the pageNum)
                  (Math_ceil_div (Z.of_nat (List.length (table st))) limit)
                  (firstn (Z.to_nat limit)
                     (skipn (Z.to_nat offset) (RecentSort.sort (table st)))))),
             st)
        | None =>
            (Sent (json 500 (ErrorBody "Internal Server Error")),
             {| table := table st;
                effects := effects st
                           ++ [ConsoleError ["Error fetching logs:"; query_error]];
                routes := routes st; listening := listening st;
                exit_code := exit_code st |})
        end
    | Throw message =>
        (Sent (json 500 (ErrorBody "Internal Server Error")),
         {| table := table st;
            effects := effects st ++ [ConsoleError ["Error fetching logs:"; message]];
            routes := routes st; listening := listening st;
            exit_code := exit_code st |})
    end.
Proof.
  intros Hpage Hlimit Hp Hl. unfold logs. rewrite Hpage, Hlimit.
  rewrite (proj2 (page_test pageNum) Hp).
  rewrite (proj2 (limit_test (Int limit)) (ex_intro _ limit (conj eq_refl Hl))).
  run_logs.
  destruct (findAndCountAll w); [|reflexivity].
  rewrite (row_count_Int limit) by (unfold bigint_max; lia).
  destruct (row_count _); reflexivity.
Qed.

(** The same run when the page is at most 2^53 and the offset, or the
    table, is too: the rows are those from [(page - 1) * limit] on. *)
Lemma logs_valid_run
    (w : World) (req : Request) (st : State) (page limit : Z) :
  parseInt (with_default (query_page req) 1) = Normal (Int page) ->
  parseInt (with_default (query_limit req) 10) = Normal (Int limit) ->
  1 <= page <= 2 ^ 53 -> 1 <= limit <= 100 ->
  Z.of_nat (List.length (table st)) <= 2 ^ 53 \/ (page - 1) * limit <= 2 ^ 53 ->
  logs w req st
  = match findAndCountAll w with
    | Normal _ =>
        (Sent (json 200
           (LogsBody (Z.of_nat (List.length (table st))) page
              (Math_ceil_div (Z.of_nat (List.length (table st))) limit)
              (firstn (Z.to_nat limit)
                 (skipn (Z.to_nat ((page - 1) * limit))
                    (RecentSort.sort (table st)))))), st)
    | Throw message =>
        (Sent (json 500 (ErrorBody "Internal Server Error")),
         {| table := table st;
            effects := effects st ++ [ConsoleError ["Error fetching logs:"; message]];
            routes := routes st; listening := listening st;
            exit_code := exit_code st |})
    end.
Proof.
  intros Hpage Hlimit Hp Hl Hsize.
  assert (Hacc : page_accepted (Int page))
    by (right; exists page; split; [reflexivity | lia]).
  rewrite (logs_accepted_run w req st _ limit Hpage Hlimit Hacc Hl).
  destruct (findAndCountAll w); [|reflexivity].
  destruct (offset_of_page page limit Hp Hl) as (offset & -> & Hoff).
  cbn [the].
  assert (Hskip : skipn (Z.to_nat offset) (RecentSort.sort (table st))
                  = skipn (Z.to_nat ((page - 1) * limit))
                      (RecentSort.sort (table st))).
  { destruct Hoff as [-> | (Ho & Hx)]; [reflexivity|].
    destruct Hsize as [Hsize|]; [|lia].
    rewrite !skipn_all2; [reflexivity | |]; rewrite sort_length; lia. }
  now rewrite Hskip.
Qed.

(** The validation of [/api/logs], in terms of what [parseInt] returns. *)
Lemma logs_validation_by_parseInt
    (w : World) (req : Request) (st : State) (pageNum limitNum : integral) :
  parseInt (with_default (query_page req) 1) = Normal pageNum ->
  parseInt (with_default (query_limit req) 10) = Normal limitNum ->
  (fst (logs w req st) = Sent (json 400 page_error)
     <-> ~ page_accepted pageNum)
  /\ (fst (logs w req st) = Sent (json 400 limit_error)
     <-> page_accepted pageNum /\ ~ limit_accepted limitNum)
  /\ (forall r, fst (logs w req st) = Sent r -> status r = 400 ->
        r = json 400 page_error \/ r = json 400 limit_error).
Proof.
  intros Hpage Hlimit.
  pose proof (page_test pageNum) as Hp.
  pose proof (limit_test limitNum) as Hl.
  destruct (isNaN pageNum || lt pageNum 1) eqn:Ep.
  - assert (Hno : ~ page_accepted pageNum)
      by (intros H; apply Hp in H; discriminate).
    assert (Hrun : fst (logs w req st) = Sent (json 400 page_error))
      by (unfold logs; rewrite Hpage, Hlimit, Ep; reflexivity).
    rewrite Hrun. split; [|split].
    + tauto.
    + split; [intros H; discriminate H | tauto].
    + intros r H _. injection H as <-. now left.
  - assert (Hyes : page_accepted pageNum) by now apply Hp.
    destruct (isNaN limitNum || lt limitNum 1 || gt limitNum 100) eqn:El.
    + assert (Hno : ~ limit_accepted limitNum)
        by (intros H; apply Hl in H; discriminate).
      assert (Hrun : fst (logs w req st) = Sent (json 400 limit_error))
        by (unfold logs; rewrite Hpage, Hlimit, Ep, El; reflexivity).
      rewrite Hrun. split; [|split].
      * split; [intros H; discriminate H | tauto].
      * tauto.
      * intros r H _. injection H as <-. now right.
    + destruct (proj1 Hl eq_refl) as (l & -> & Hl').
      assert (Hyes' : limit_accepted (Int l)) by now apply Hl.
      rewrite (logs_accepted_run w req st pageNum l Hpage Hlimit Hyes Hl').
      destruct (findAndCountAll w); [destruct (row_count _)|]; simpl;
        (split; [|split]);
        try (split; [intros H; discriminate H | tauto]);
        intros r H; injection H as <-; simpl; intros; discriminate.
Qed.

(** C1 (as the code has it): for every request, [/api/logs] answers 400
    with the page message exactly when both parameters convert to text
    and [parseInt(page)] is NaN or below 1, and 400 with the limit message
    exactly when both convert, the page passes and [parseInt(limit)] is
    NaN or outside 1..100; it sends no other response of status 400.  A
    parameter that is an integer numeral in range, or absent, always
    passes; so does one that merely starts with such a numeral.  The
    pages 0, -1 and abc and the limits 0, 101 and abc are rejected. *)
Theorem logs_validation :
  (forall (w : World) (req : Request) (st : State),
      (fst (logs w req st) = Sent (json 400 page_error)
         <-> exists pageNum limitNum,
               parseInt (with_default (query_page req) 1) = Normal pageNum
               /\ parseInt (with_default (query_limit req) 10) = Normal limitNum
               /\ ~ page_accepted pageNum)
      /\ (fst (logs w req st) = Sent (json 400 limit_error)
         <-> exists pageNum limitNum,
               parseInt (with_default (query_page req) 1) = Normal pageNum
               /\ parseInt (with_default (query_limit req) 10) = Normal limitNum
               /\ page_accepted pageNum /\ ~ limit_accepted limitNum)
      /\ (forall r, fst (logs w req st) = Sent r -> status r = 400 ->
            r = json 400 page_error \/ r = json 400 limit_error))
  /\ (forall pageNum limitNum : integral,
        (~ page_accepted pageNum
           <-> pageNum = NaN \/ pageNum = MinusInfinity
               \/ exists n, pageNum = Int n /\ n < 1)
        /\ (~ limit_accepted limitNum
           <-> limitNum = NaN \/ limitNum = MinusInfinity
               \/ limitNum = PlusInfinity
               \/ exists n, limitNum = Int n /\ (n < 1 \/ 100 < n)))
  /\ (forall (w : World) (req : Request) (st : State),
        Spec.valid_page (query_page req) = true ->
        Spec.valid_limit (query_limit req) = true ->
        forall r, fst (logs w req st) = Sent r -> status r <> 400)
  /\ (forall (w : World) (st : State) (s : string) (limit : option string),
        In s ["0"; "-1"; "abc"] ->
        fst (logs w (Sample.logs_request (Some s) limit) st)
        = Sent (json 400 page_error))
  /\ (forall (w : World) (st : State) (s : string),
        In s ["0"; "101"; "abc"] ->
        fst (logs w (Sample.logs_request None (Some s)) st)
        = Sent (json 400 limit_error)).
Proof.
  split; [|split; [|split; [|split]]].
  - intros w req st.
    destruct (parseInt (with_default (query_page req) 1)) as [pageNum|m] eqn:Ep.
    2:{ assert (Hrun : fst (logs w req st) = Rejected m)
          by (unfold logs; rewrite Ep; reflexivity).
        rewrite Hrun. split; [|split].
        - split; [intros H; discriminate H|].
          intros (p & l & H & _). discriminate H.
        - split; [intros H; discriminate H|].
          intros (p & l & H & _). discriminate H.
        - intros r H. discriminate H. }
    destruct (parseInt (with_default (query_limit req) 10)) as [limitNum|m] eqn:El.
    2:{ assert (Hrun : fst (logs w req st) = Rejected m)
          by (unfold logs; rewrite Ep, El; reflexivity).
        rewrite Hrun. split; [|split].
        - split; [intros H; discriminate H|].
          intros (p & l & _ & H & _). discriminate H.
        - split; [intros H; discriminate H|].
          intros (p & l & _ & H & _). discriminate H.
        - intros r H. discriminate H. }
    destruct (logs_validation_by_parseInt w req st _ _ Ep El) as (H1 & H2 & H3).
    split; [|split; [|exact H3]].
    + rewrite H1. split.
      * intros H. exists pageNum, limitNum. auto.
      * intros (p & l & E1 & E2 & H). injection E1 as <-. exact H.
    + rewrite H2. split.
      * intros H. exists pageNum, limitNum. auto.
      * intros (p & l & E1 & E2 & H). injection E1 as <-. injection E2 as <-.
        exact H.
  - intros pageNum limitNum. split; [apply page_refused | apply limit_refused].
  - intros w req st Hp Hl r Hr Hs.
    destruct (valid_page_accepted _ Hp) as (p & Ep & Hp1).
    destruct (valid_limit_accepted _ Hl) as (l & El & Hl1).
    rewrite (logs_accepted_run w req st p l Ep El Hp1 Hl1) in Hr.
    destruct (findAndCountAll w); [destruct (row_count _)|];
      simpl in Hr; injection Hr as <-; simpl in Hs; discriminate Hs.
  - intros w st s limit Hin. unfold logs.
    destruct limit as [l|];
      cbn [Sample.logs_request query_page query_limit option_map].
    + cbn [with_default].
      change (parseInt (Str l)) with (Normal (parseInt_string l)).
      generalize (parseInt_string l). intros limitNum.
      simpl in Hin. destruct Hin as [<- | [<- | [<- | []]]]; reflexivity.
    + rewrite parseInt_default_limit.
      simpl in Hin. destruct Hin as [<- | [<- | [<- | []]]]; reflexivity.
  - intros w st s Hin. unfold logs.
    cbn [Sample.logs_request query_page query_limit option_map].
    rewrite parseInt_default_page.
    simpl in Hin. destruct Hin as [<- | [<- | [<- | []]]]; reflexivity.
Qed.

Lemma logs_validation_witness :
  let req := Sample.logs_request (Some "7") (Some "25") in
  Spec.valid_page (query_page req) = true
  /\ Spec.valid_limit (query_limit req) = true
  /\ (forall r, fst (logs Sample.world req (initial [])) = Sent r ->
        status r <> 400)
  /\ fst (logs Sample.world (Sample.logs_request (Some "7") (Some "250"))
            (initial []))
     = Sent (json 400 limit_error).
Proof.
  intros req.
  destruct logs_validation as (Hexact & _ & Hvalid & _).
  split; [reflexivity|]. split; [reflexivity|].
  split; [exact (Hvalid Sample.world req (initial []) eq_refl eq_refl)|].
  apply Hexact. exists (Int 7), (Int 250).
  split; [reflexivity|]. split; [reflexivity|]. split.
  - right. exists 7. split; [reflexivity | lia].
  - intros (n & E & Hn). injection E as <-. lia.
Defined.

(** The run behind the counterexample: page 1.5 and page 7abc are served
    as pages 1 and 7. *)
Example numeral_prefix_is_served :
  fst (logs Sample.world (Sample.logs_request (Some "1.5") None) (initial []))
  = Sent (json 200 (LogsBody 0 1 0 []))
  /\ fst (logs Sample.world (Sample.logs_request (Some "7abc") None) (initial []))
     = Sent (json 200 (LogsBody 0 7 0 [])).
Proof. split; reflexivity. Qed.

(** C1, counterexample: page 1.5 is not an integer, and is served as
    page 1; with page 0 and limit 0 the limit is out of range, and the
    answer is the page message. *)
Lemma validation_is_lenient_and_ordered :
  ~ Stated.validation_exact Sample.world
      (Sample.logs_request (Some "1.5") None) (initial [])
  /\ ~ Stated.validation_exact Sample.world
        (Sample.logs_request (Some "0") (Some "0")) (initial []).
Proof.
  split; intros (Hpage & Hlimit).
  - assert (H : fst (logs Sample.world (Sample.logs_request (Some "1.5") None)
                       (initial [])) = Sent (json 400 page_error))
      by (apply Hpage; reflexivity).
    vm_compute in H. discriminate H.
  - assert (H : fst (logs Sample.world (Sample.logs_request (Some "0") (Some "0"))
                       (initial [])) = Sent (json 400 limit_error))
      by (apply Hlimit; reflexivity).
    vm_compute in H. discriminate H.
Qed.

(** [Math.ceil(count / limitNum)] is the least number of pages of
    [limitNum] rows that hold [count] rows. *)
Lemma Math_ceil_div_spec (count limitNum : Z) :
  0 < limitNum ->
  (Math_ceil_div count limitNum - 1) * limitNum < count
  <= Math_ceil_div count limitNum * limitNum.
Proof.
  intros H. unfold Math_ceil_div.
  destruct limitNum as [|p|p]; try lia.
  pose proof (Qle_ceiling (inject_Z count / inject_Z (Z.pos p))) as Hle.
  pose proof (Qceiling_lt (inject_Z count / inject_Z (Z.pos p))) as Hlt.
  set (t := Qceiling (inject_Z count / inject_Z (Z.pos p))) in *.
  unfold Qle, Qlt, Qdiv, Qmult, Qinv, inject_Z in Hle, Hlt.
  simpl in Hle, Hlt. lia.
Qed.

(** The ceiling of the quotient that the code computes in doubles is the
    ceiling of the exact quotient. *)
Lemma Math_ceil_div_rounded (count limitNum : Z) :
  0 <= count <= 2 ^ 53 -> 1 <= limitNum <= 100 ->
  ceiling (to_double count limitNum) = Some (Math_ceil_div count limitNum).
Proof.
  intros Hc Hl.
  pose proof (Math_ceil_div_spec count limitNum ltac:(lia)) as Hspec.
  destruct (Z.eq_dec count 0) as [->|Hne].
  - cbn [to_double Z.eqb ceiling]. f_equal; nia.
  - apply ceiling_of_quotient; [lia | exact Hl | exact Hspec].
Qed.

(** C2 (as the code has it): when [parseInt] makes of the page an integer
    from 1 to 2^53 and of the limit one from 1 to 100, the store answers
    and the table holds at most 2^53 rows, the response is 200 with
    totalRecords the number of rows, currentPage the page, totalPages the
    ceiling of totalRecords / limit, and logs the rows at positions
    (page-1)*limit up to page*limit of the table ordered by visited_at
    descending, at most limit of them.  The ceiling is the one the code
    takes of the quotient in doubles, and an integer numeral in the range
    of the page or of the limit is parsed to itself. *)
Theorem logs_page
    (w : World) (req : Request) (st : State) (page limit : Z)
    (Hpage : parseInt (with_default (query_page req) 1) = Normal (Int page))
    (Hlimit : parseInt (with_default (query_limit req) 10) = Normal (Int limit))
    (Hp : 1 <= page <= 2 ^ 53) (Hl : 1 <= limit <= 100)
    (Hstore : findAndCountAll w = Normal tt)
    (Hsize : Z.of_nat (List.length (table st)) <= 2 ^ 53) :
  exists totalPages rows ordered,
    fst (logs w req st)
      = Sent (json 200 (LogsBody (Z.of_nat (List.length (table st)))
                          page totalPages rows))
    /\ (totalPages - 1) * limit < Z.of_nat (List.length (table st))
       <= totalPages * limit
    /\ ceiling (to_double (Z.of_nat (List.length (table st))) limit)
       = Some totalPages
    /\ Permutation (table st) ordered
    /\ StronglySorted newer_or_same ordered
    /\ rows = firstn (Z.to_nat limit)
                (skipn (Z.to_nat ((page - 1) * limit)) ordered)
    /\ (forall i, (i < Z.to_nat limit)%nat ->
          nth_error rows i
          = nth_error ordered (Z.to_nat ((page - 1) * limit) + i))
    /\ Z.of_nat (List.length rows) <= limit
    /\ snd (logs w req st) = st
    /\ (forall q n, Spec.integer_parameter q 1 = Some n -> 1 <= n <= 2 ^ 53 ->
          parseInt (with_default q 1) = Normal (Int n))
    /\ (forall q n, Spec.integer_parameter q 10 = Some n -> 1 <= n <= 100 ->
          parseInt (with_default q 10) = Normal (Int n)).
Proof.
  exists (Math_ceil_div (Z.of_nat (List.length (table st))) limit),
    (firstn (Z.to_nat limit)
       (skipn (Z.to_nat ((page - 1) * limit)) (RecentSort.sort (table st)))),
    (RecentSort.sort (table st)).
  destruct (sort_recent_first (table st)) as (Hperm & Hsorted).
  rewrite (logs_valid_run w req st page limit Hpage Hlimit Hp Hl (or_introl Hsize)),
    Hstore.
  split; [reflexivity|].
  split; [apply Math_ceil_div_spec; lia|].
  split; [apply Math_ceil_div_rounded; lia|].
  split; [exact Hperm|]. split; [exact Hsorted|]. split; [reflexivity|].
  split.
  { intros i Hi. rewrite nth_error_firstn, nth_error_skipn.
    destruct (Nat.ltb_spec i (Z.to_nat limit)); [reflexivity | lia]. }
  split.
  { rewrite length_firstn. lia. }
  split; [reflexivity|].
  split; intros q n E Hn; apply integer_parameter_parses; auto; lia.
Qed.

Lemma logs_page_witness :
  let req := Sample.logs_request (Some "2") (Some "2") in
  let st := initial [Sample.row 1 5; Sample.row 2 7; Sample.row 3 6] in
  parseInt (with_default (query_page req) 1) = Normal (Int 2)
  /\ parseInt (with_default (query_limit req) 10) = Normal (Int 2)
  /\ 1 <= 2 <= 2 ^ 53 /\ 1 <= 2 <= 100
  /\ findAndCountAll Sample.world = Normal tt
  /\ Z.of_nat (List.length (table st)) <= 2 ^ 53
  /\ fst (logs Sample.world req st)
     = Sent (json 200 (LogsBody 3 2 2 [Sample.row 1 5]))
  /\ exists totalPages rows ordered,
       fst (logs Sample.world req st)
         = Sent (json 200 (LogsBody 3 2 totalPages rows))
       /\ (totalPages - 1) * 2 < 3 <= totalPages * 2
       /\ rows = firstn 2 (skipn 2 ordered).
Proof.
  intros req st.
  split; [reflexivity|]. split; [reflexivity|]. split; [lia|]. split; [lia|].
  split; [reflexivity|]. split; [simpl; lia|]. split; [reflexivity|].
  destruct (logs_page Sample.world req st 2 2 eq_refl eq_refl
              ltac:(lia) ltac:(lia) eq_refl ltac:(simpl; lia))
    as (totalPages & rows & ordered & H1 & H2 & _ & _ & _ & H5 & _).
  exists totalPages, rows, ordered.
  split; [exact H1|]. split; [exact H2 | exact H5].
Defined.

(** C2, counterexample: 9007199254740993 is a valid page, and the
    response to it carries currentPage 9007199254740992, the Number
    [parseInt] makes of it. *)
Lemma large_page_is_rounded :
  ~ Stated.current_page_is_page Sample.world
      (Sample.logs_request (Some "9007199254740993") (Some "1")) (initial []).
Proof.
  intros H.
  set (req := Sample.logs_request (Some "9007199254740993") (Some "1")) in *.
  assert (Hpage : parseInt (with_default (query_page req) 1)
                  = Normal (Int 9007199254740992)) by (vm_compute; reflexivity).
  assert (Hlimit : parseInt (with_default (query_limit req) 10) = Normal (Int 1))
    by (vm_compute; reflexivity).
  assert (Hrun : fst (logs Sample.world req (initial []))
                 = Sent (json 200 (LogsBody 0 9007199254740992 0 []))).
  { rewrite (logs_valid_run Sample.world req (initial []) _ 1 Hpage Hlimit
               ltac:(lia) ltac:(lia) ltac:(left; simpl; lia)).
    cbn [findAndCountAll Sample.world fst initial table List.length].
    change (RecentSort.sort []) with (@nil Visit).
    rewrite skipn_nil, firstn_nil. reflexivity. }
  specialize (H 9007199254740993 eq_refl ltac:(lia) _ _ _ _ Hrun).
  discriminate H.
Qed.

(* ================================================================= *)
(** ** Further properties of the capture handler *)

Import Vary.

Lemma inserted_app (a b : list Effect) :
  inserted (a ++ b) = (inserted a ++ inserted b)%list.
Proof.
  induction a as [|e a IH]; simpl; [reflexivity|].
  destruct e; simpl; now rewrite IH.
Qed.

Lemma stored_at_most_one (w : World) (address userAgent : string) (st : State) :
  (List.length (stored w address userAgent st) <= 1)%nat.
Proof.
  unfold stored. destruct (written _ _ _); simpl; lia.
Qed.

(** X1: whatever the request and whatever the provider and the store
    do, the capture handler answers 200 with a body [{ip, userAgent,
    locationData}], makes at most one provider call, and leaves the
    table as it was except for at most one row appended at its end. *)
Theorem capture_always_answers_and_adds_at_most_one_row
    (w : World) (req : Request) (st : State) :
  let out := client_info w req st in
  (exists address userAgent l,
      fst out = Sent (json 200 (ClientInfoBody address userAgent l)))
  /\ (exists calls,
        http_calls (effects (snd out)) = (http_calls (effects st) ++ calls)%list
        /\ (List.length calls <= 1)%nat)
  /\ (exists added,
        table (snd out) = (table st ++ added)%list
        /\ (List.length added <= 1)%nat).
Proof.
  intros out. subst out.
  destruct (client_info_run w req st) as (Hr & Hc & Ht & _).
  split; [eauto|]. split.
  - eexists. split; [exact Hc|].
    destruct (skips_geolocation _); simpl; lia.
  - eexists. split; [exact Ht | apply stored_at_most_one].
Qed.

Lemma or_string_absent (a : option string) (b : string) :
  a = None \/ a = Some "" -> or_string a b = b.
Proof. intros [-> | ->]; reflexivity. Qed.

(** X2: when the request carries neither an X-Forwarded-For header nor a
    socket address (each undefined or empty), the handler answers with ip
    "Unknown", every locationData field N/A, calls no provider, and any
    row it stores has ip "Unknown" and N/A coordinates. *)
Theorem unknown_address_is_not_geolocated
    (w : World) (req : Request) (st : State)
    (Hheader : x_forwarded_for req = None \/ x_forwarded_for req = Some "")
    (Hsocket : remoteAddress req = None \/ remoteAddress req = Some "") :
  let out := client_info w req st in
  fst out
    = Sent (json 200 (ClientInfoBody "Unknown"
                        (or_string (user_agent_header req) "Unknown")
                        default_location))
  /\ http_calls (effects (snd out)) = http_calls (effects st)
  /\ exists added,
       table (snd out) = (table st ++ added)%list
       /\ Forall (fun row => ip (attrs row) = Str "Unknown"
                             /\ latitude (attrs row) = NA
                             /\ longitude (attrs row) = NA) added.
Proof.
  intros out. subst out.
  destruct (client_info_run w req st) as (Hr & Hc & Ht & _).
  assert (E : normalize_ip (extracted_ip req) = "Unknown").
  { unfold extracted_ip. now rewrite !or_string_absent. }
  rewrite E in Hr, Hc, Ht. simpl in Hc. rewrite app_nil_r in Hc.
  split; [exact Hr|]. split; [exact Hc|].
  eexists. split; [exact Ht|].
  apply (Forall_stored w "Unknown" _ st
           (fun a => ip a = Str "Unknown" /\ latitude a = NA /\ longitude a = NA)).
  intros c Hip _ _ _ Hla Hlo.
  simpl in Hla, Hlo. injection Hla as ->. injection Hlo as ->. auto.
Qed.

Lemma unknown_address_is_not_geolocated_witness :
  let req := {| x_forwarded_for := Some ""; remoteAddress := None;
                user_agent_header := None;
                query_page := None; query_limit := None |} in
  (x_forwarded_for req = None \/ x_forwarded_for req = Some "")
  /\ (remoteAddress req = None \/ remoteAddress req = Some "")
  /\ fst (client_info Sample.world req (initial []))
     = Sent (json 200 (ClientInfoBody "Unknown" "Unknown" default_location))
  /\ http_calls (effects (snd (client_info Sample.world req (initial [])))) = [].
Proof.
  intros req.
  split; [right; reflexivity|]. split; [left; reflexivity|].
  destruct (unknown_address_is_not_geolocated Sample.world req (initial [])
              (or_intror eq_refl) (or_introl eq_refl)) as (H1 & H2 & _).
  split; [exact H1 | exact H2].
Defined.

(** X3: a non-empty X-Forwarded-For header decides the address alone:
    the run is the same whatever the socket address of the peer, so the
    header of a loopback peer is geolocated and the header "127.0.0.1"
    of a remote peer is not. *)
Theorem forwarded_header_overrides_socket
    (w : World) (req : Request) (st : State) (header : string)
    (Hheader : x_forwarded_for req = Some header) (Hne : header <> "") :
  forall peer,
    client_info w (with_remoteAddress req peer) st = client_info w req st.
Proof.
  intros peer. unfold client_info, extracted_ip. simpl.
  rewrite Hheader. simpl.
  apply String.eqb_neq in Hne. rewrite Hne. reflexivity.
Qed.

Lemma forwarded_header_overrides_socket_witness :
  let req := {| x_forwarded_for := Some "198.51.100.4";
                remoteAddress := Some "::1";
                user_agent_header := None;
                query_page := None; query_limit := None |} in
  x_forwarded_for req = Some "198.51.100.4"
  /\ "198.51.100.4" <> ""
  /\ client_info Sample.world (with_remoteAddress req (Some "203.0.113.7"))
       (initial [])
     = client_info Sample.world req (initial [])
  /\ http_calls (effects (snd (client_info Sample.world req (initial []))))
     = ["https://ipapi.co/198.51.100.4/json/"].
Proof.
  intros req.
  split; [reflexivity|]. split; [discriminate|].
  split; [|reflexivity].
  exact (forwarded_header_overrides_socket Sample.world req (initial [])
           "198.51.100.4" eq_refl ltac:(discriminate) (Some "203.0.113.7")).
Defined.

(** X16: when the provider's body gives the latitude as an object that
    carries its own [toString] property, [.toString()] throws inside the
    [try] block: no row is stored, whatever the store would have
    answered, the failure is logged as a database error, and the response
    is still 200 with the object as latitude. *)
Theorem unconvertible_coordinate_skips_the_insert
    (w : World) (req : Request) (st : State)
    (props inner : list (string * value)) (shadow : value)
    (Haddr : skips_geolocation (normalize_ip (extracted_ip req)) = false)
    (Hbody : axios_get w (geolocation_url (normalize_ip (extracted_ip req)))
             = Normal (Obj props))
    (Hlat : own_property props "latitude" = Some (Obj inner))
    (Hshadow : own_property inner "toString" = Some shadow) :
  let out := client_info w req st in
  (exists address userAgent l,
      fst out = Sent (json 200 (ClientInfoBody address userAgent l))
      /\ loc_latitude l = Obj inner)
  /\ table (snd out) = table st
  /\ exists logged,
       console_errors (effects (snd out))
       = (console_errors (effects st) ++ [["Database error:"; logged]])%list.
Proof.
  intros out. subst out.
  destruct (client_info_run w req st) as (Hr & _ & Ht & He).
  pose proof (located_fields w _ Haddr) as Hf. rewrite Hbody in Hf.
  destruct Hf as (_ & _ & _ & Hla & _).
  assert (Elat : loc_latitude (located w (normalize_ip (extracted_ip req)))
                 = Obj inner)
    by (rewrite Hla; unfold field_or_NA, supplied; now rewrite Hlat).
  assert (Eattrs : exists m,
             visit_attrs (normalize_ip (extracted_ip req))
               (or_string (user_agent_header req) "Unknown")
               (located w (normalize_ip (extracted_ip req))) = Throw m).
  { unfold visit_attrs. rewrite Elat. simpl. rewrite Hshadow. eauto. }
  destruct Eattrs as (m & Eattrs).
  split; [eauto 6|].
  unfold stored, written in Ht. unfold written in He.
  rewrite Eattrs in Ht, He. rewrite app_nil_r in Ht.
  split; [exact Ht | eauto].
Qed.

Lemma unconvertible_coordinate_skips_the_insert_witness :
  let body := Obj [("city", Str "Dublin");
                   ("latitude", Obj [("toString", Str "53.3")])] in
  let w := with_axios Sample.world (fun _ => Normal body) in
  let req := Sample.request_from "203.0.113.7" in
  skips_geolocation (normalize_ip (extracted_ip req)) = false
  /\ axios_get w (geolocation_url (normalize_ip (extracted_ip req))) = Normal body
  /\ create w = (fun _ => Normal tt)
  /\ table (snd (client_info w req (initial []))) = [].
Proof.
  intros body w req.
  split; [reflexivity|]. split; [reflexivity|]. split; [reflexivity|].
  exact (proj1 (proj2 (unconvertible_coordinate_skips_the_insert w req (initial [])
                         _ _ _ eq_refl eq_refl eq_refl eq_refl))).
Defined.

(* ================================================================= *)
(** ** Further properties of the log listing *)

(** X4: with a valid page and limit, when the store query throws, the
    handler answers 500 [{error: "Internal Server Error"}] with no rows,
    logs the store's message once with [console.error], and leaves the
    table alone. *)
Theorem logs_store_failure_is_500
    (w : World) (req : Request) (st : State) (page limit : Z) (message : string)
    (Hpage : parseInt (with_default (query_page req) 1) = Normal (Int page))
    (Hlimit : parseInt (with_default (query_limit req) 10) = Normal (Int limit))
    (Hp : 1 <= page) (Hl : 1 <= limit <= 100)
    (Hstore : findAndCountAll w = Throw message) :
  let out := logs w req st in
  fst out = Sent (json 500 (ErrorBody "Internal Server Error"))
  /\ console_errors (effects (snd out))
     = (console_errors (effects st) ++ [["Error fetching logs:"; message]])%list
  /\ table (snd out) = table st.
Proof.
  intros out. subst out.
  assert (Hacc : page_accepted (Int page))
    by (right; exists page; split; [reflexivity | exact Hp]).
  rewrite (logs_accepted_run w req st _ limit Hpage Hlimit Hacc Hl), Hstore.
  simpl. rewrite console_errors_app. auto.
Qed.

Lemma logs_store_failure_is_500_witness :
  let w := with_findAndCountAll Sample.world (Throw "connection terminated") in
  let req := Sample.logs_request (Some "3") None in
  parseInt (with_default (query_page req) 1) = Normal (Int 3)
  /\ parseInt (with_default (query_limit req) 10) = Normal (Int 10)
  /\ 1 <= 3 /\ 1 <= 10 <= 100
  /\ findAndCountAll w = Throw "connection terminated"
  /\ fst (logs w req (initial [Sample.row 1 5]))
     = Sent (json 500 (ErrorBody "Internal Server Error")).
Proof.
  intros w req.
  split; [reflexivity|]. split; [reflexivity|]. split; [lia|]. split; [lia|].
  split; [reflexivity|].
  exact (proj1 (logs_store_failure_is_500 w req (initial [Sample.row 1 5]) 3 10
                  "connection terminated" eq_refl eq_refl
                  ltac:(lia) ltac:(lia) eq_refl)).
Defined.

(** X5: [/api/logs] never writes: whatever the request and the store do,
    the table is as before, no provider call is made and no row is
    inserted.  When it sends a response, the routes, the listener and the
    exit status are as before too.  When a parameter cannot be converted
    and the handler rejects, the process ends with status 1 and the
    listener is gone. *)
Theorem logs_is_read_only (w : World) (req : Request) (st : State) :
  let out := logs w req st in
  table (snd out) = table st
  /\ http_calls (effects (snd out)) = http_calls (effects st)
  /\ inserted (effects (snd out)) = inserted (effects st)
  /\ (forall r, fst out = Sent r ->
        routes (snd out) = routes st
        /\ listening (snd out) = listening st
        /\ exit_code (snd out) = exit_code st)
  /\ (forall message, fst out = Rejected message ->
        routes (snd out) = routes st
        /\ listening (snd out) = None
        /\ exit_code (snd out) = Some 1).
Proof.
  intros out. subst out. unfold logs.
  destruct (parseInt (with_default (query_page req) 1)) as [pageNum|m].
  2:{ simpl. repeat split; intros; discriminate. }
  destruct (parseInt (with_default (query_limit req) 10)) as [limitNum|m].
  2:{ simpl. repeat split; intros; discriminate. }
  destruct (isNaN pageNum || lt pageNum 1).
  { simpl. repeat split; intros; discriminate. }
  destruct (isNaN limitNum || lt limitNum 1 || gt limitNum 100).
  { simpl. repeat split; intros; discriminate. }
  run_logs.
  destruct (findAndCountAll w);
    [destruct (row_count _); [destruct (row_count _)|]|]; simpl;
    rewrite ?http_calls_app, ?inserted_app; simpl; rewrite ?app_nil_r;
    repeat split; intros; discriminate.
Qed.

Lemma logs_is_read_only_witness :
  let req := {| x_forwarded_for := None; remoteAddress := Some "203.0.113.7";
                user_agent_header := None;
                query_page := Some (Obj [("toString", Str "1")]);
                query_limit := None |} in
  let st := {| table := [Sample.row 1 5]; effects := [];
               routes := all_routes; listening := Some "8080";
               exit_code := None |} in
  fst (logs Sample.world req st)
    = Rejected "Cannot convert object to primitive value"
  /\ exit_code (snd (logs Sample.world req st)) = Some 1
  /\ listening (snd (logs Sample.world req st)) = None
  /\ table (snd (logs Sample.world req st)) = [Sample.row 1 5].
Proof.
  intros req st.
  destruct (logs_is_read_only Sample.world req st) as (Ht & _ & _ & _ & Hrej).
  destruct (Hrej _ eq_refl) as (_ & Hl & He).
  split; [reflexivity|]. split; [exact He|]. split; [exact Hl | exact Ht].
Defined.

(** X6: the handler rejects without answering exactly when a query
    parameter cannot be converted to a string (an object carrying its own
    [toString] property); every response it sends has status 200, 400 or
    500. *)
Theorem logs_answers_unless_conversion_throws
    (w : World) (req : Request) (st : State) :
  ((exists message, fst (logs w req st) = Rejected message)
   <-> ToString (with_default (query_page req) 1) = None
       \/ ToString (with_default (query_limit req) 10) = None)
  /\ (forall r, fst (logs w req st) = Sent r ->
        status r = 200 \/ status r = 400 \/ status r = 500).
Proof.
  unfold logs, parseInt.
  destruct (ToString (with_default (query_page req) 1)) as [ps|].
  2:{ simpl. split; [split; eauto | intros r H; discriminate H]. }
  destruct (ToString (with_default (query_limit req) 10)) as [ls|].
  2:{ simpl. split; [split; eauto | intros r H; discriminate H]. }
  assert (Hno : ~ (Some ps = None \/ Some ls = None))
    by (intros [H|H]; discriminate H).
  destruct (isNaN (parseInt_string ps) || lt (parseInt_string ps) 1).
  { simpl. split.
    - split; [intros (m & H); discriminate H | tauto].
    - intros r H. injection H as <-. simpl. auto. }
  destruct (isNaN (parseInt_string ls) || lt (parseInt_string ls) 1
            || gt (parseInt_string ls) 100).
  { simpl. split.
    - split; [intros (m & H); discriminate H | tauto].
    - intros r H. injection H as <-. simpl. auto. }
  run_logs.
  destruct (findAndCountAll w);
    [destruct (row_count _); [destruct (row_count _)|]|]; simpl; split;
    try (split; [intros (m & H); discriminate H | tauto]);
    intros r H; injection H as <-; simpl; auto.
Qed.

Lemma sort_In (rows : list Visit) (x : Visit) :
  In x (RecentSort.sort rows) <-> In x rows.
Proof.
  split; intros H.
  - eapply Permutation_in; [|exact H].
    apply Permutation_sym, RecentSort.Permuted_sort.
  - eapply Permutation_in; [|exact H]. apply RecentSort.Permuted_sort.
Qed.

Lemma In_firstn {A} (n : nat) (l : list A) (x : A) :
  In x (firstn n l) -> In x l.
Proof.
  intros H. rewrite <- (firstn_skipn n l). apply in_or_app. now left.
Qed.

Lemma In_skipn {A} (n : nat) (l : list A) (x : A) :
  In x (skipn n l) -> In x l.
Proof.
  intros H. rewrite <- (firstn_skipn n l). apply in_or_app. now right.
Qed.

Lemma Math_ceil_div_bounds (count limitNum : Z) :
  0 <= count -> 1 <= limitNum ->
  0 <= Math_ceil_div count limitNum <= count.
Proof.
  intros Hc Hl.
  pose proof (Math_ceil_div_spec count limitNum ltac:(lia)) as H.
  nia.
Qed.

(** X7: every 200 response of [/api/logs] has currentPage at least 1, at
    most 100 rows, all of them rows of the table, totalRecords the size
    of the table, and totalPages between 0 and totalRecords. *)
Theorem logs_response_bounds
    (w : World) (req : Request) (st : State)
    (total current pages : Z) (rows : list Visit)
    (Hout : fst (logs w req st)
            = Sent (json 200 (LogsBody total current pages rows))) :
  1 <= current
  /\ (List.length rows <= 100)%nat
  /\ (forall row, In row rows -> In row (table st))
  /\ total = Z.of_nat (List.length (table st))
  /\ 0 <= pages <= total.
Proof.
  destruct (parseInt (with_default (query_page req) 1)) as [pageNum|m] eqn:Hpage.
  2:{ unfold logs in Hout. rewrite Hpage in Hout. discriminate Hout. }
  destruct (parseInt (with_default (query_limit req) 10)) as [limitNum|m]
    eqn:Hlimit.
  2:{ unfold logs in Hout. rewrite Hpage, Hlimit in Hout. discriminate Hout. }
  destruct (isNaN pageNum || lt pageNum 1) eqn:Ep.
  { unfold logs in Hout. rewrite Hpage, Hlimit, Ep in Hout. discriminate Hout. }
  destruct (isNaN limitNum || lt limitNum 1 || gt limitNum 100) eqn:El.
  { unfold logs in Hout. rewrite Hpage, Hlimit, Ep, El in Hout.
    discriminate Hout. }
  apply page_test in Ep. apply limit_test in El.
  destruct El as (l & -> & Hl).
  rewrite (logs_accepted_run w req st pageNum l Hpage Hlimit Ep Hl) in Hout.
  destruct (findAndCountAll w); [|discriminate Hout].
  destruct Ep as [-> | (p & -> & Hp)].
  { rewrite infinite_page_offset in Hout by lia. discriminate Hout. }
  destruct (row_count _); [|discriminate Hout].
  simpl in Hout. injection Hout as <- <- <- <-.
  split; [exact Hp|]. split; [rewrite length_firstn; lia|].
  split.
  { intros row Hin. apply In_firstn, In_skipn in Hin. now apply sort_In. }
  split; [reflexivity|].
  apply Math_ceil_div_bounds; lia.
Qed.

Lemma logs_response_bounds_witness :
  let req := Sample.logs_request (Some "2") (Some "2") in
  let st := initial [Sample.row 1 5; Sample.row 2 7; Sample.row 3 6] in
  fst (logs Sample.world req st)
    = Sent (json 200 (LogsBody 3 2 2 [Sample.row 1 5]))
  /\ 1 <= 2 /\ 0 <= 2 <= 3.
Proof.
  intros req st.
  split; [reflexivity|].
  destruct (logs_response_bounds Sample.world req st 3 2 2 [Sample.row 1 5]
              eq_refl) as (H1 & _ & _ & _ & H5).
  split; [exact H1 | exact H5].
Defined.

(** X8: the pages of a listing cover the table.  In a table of at most
    2^53 rows, the row at position [i] of the table ordered by
    [visited_at] descending is the row at position [i mod limit] of page
    [i / limit + 1], and that page is no later than totalPages. *)
Theorem every_row_is_listed_on_its_page
    (w : World) (req : Request) (st : State) (limit : Z) (i : nat)
    (Hpage : parseInt (with_default (query_page req) 1)
             = Normal (Int (page_of i limit)))
    (Hlimit : parseInt (with_default (query_limit req) 10) = Normal (Int limit))
    (Hl : 1 <= limit <= 100)
    (Hstore : findAndCountAll w = Normal tt)
    (Hi : (i < List.length (table st))%nat)
    (Hsize : Z.of_nat (List.length (table st)) <= 2 ^ 53) :
  exists total pages rows row,
    fst (logs w req st)
      = Sent (json 200 (LogsBody total (page_of i limit) pages rows))
    /\ nth_error (RecentSort.sort (table st)) i = Some row
    /\ nth_error rows (Z.to_nat (Z.of_nat i mod limit)) = Some row
    /\ page_of i limit <= pages.
Proof.
  pose proof (Z.div_mod (Z.of_nat i) limit ltac:(lia)) as Hdm.
  pose proof (Z.mod_pos_bound (Z.of_nat i) limit ltac:(lia)) as Hr.
  pose proof (Z.div_pos (Z.of_nat i) limit ltac:(lia) ltac:(lia)) as Hq.
  assert (Hqi : Z.of_nat i / limit <= Z.of_nat i) by nia.
  assert (Hp : 1 <= page_of i limit <= 2 ^ 53) by (unfold page_of; lia).
  rewrite (logs_valid_run w req st _ limit Hpage Hlimit Hp Hl (or_introl Hsize)),
    Hstore.
  destruct (nth_error (RecentSort.sort (table st)) i) as [row|] eqn:Erow.
  2:{ apply nth_error_None in Erow. rewrite sort_length in Erow. lia. }
  eexists _, _, _, row. split; [reflexivity|]. split; [reflexivity|].
  split.
  - rewrite nth_error_firstn, nth_error_skipn.
    destruct (Nat.ltb_spec (Z.to_nat (Z.of_nat i mod limit)) (Z.to_nat limit))
      as [_|Hge]; [|exfalso; lia].
    rewrite <- Erow. f_equal. unfold page_of.
    replace ((Z.of_nat i / limit + 1 - 1) * limit)
      with (limit * (Z.of_nat i / limit)) by ring.
    lia.
  - pose proof (Math_ceil_div_spec (Z.of_nat (List.length (table st))) limit
                  ltac:(lia)) as Hc.
    unfold page_of. nia.
Qed.

Lemma every_row_is_listed_on_its_page_witness :
  let req := Sample.logs_request (Some "2") (Some "2") in
  let st := initial [Sample.row 1 5; Sample.row 2 7; Sample.row 3 6] in
  parseInt (with_default (query_page req) 1) = Normal (Int (page_of 2 2))
  /\ parseInt (with_default (query_limit req) 10) = Normal (Int 2)
  /\ 1 <= 2 <= 100
  /\ findAndCountAll Sample.world = Normal tt
  /\ (2 < List.length (table st))%nat
  /\ Z.of_nat (List.length (table st)) <= 2 ^ 53
  /\ exists total pages rows row,
       fst (logs Sample.world req st)
         = Sent (json 200 (LogsBody total (page_of 2 2) pages rows))
       /\ nth_error (RecentSort.sort (table st)) 2 = Some row
       /\ nth_error rows (Z.to_nat (Z.of_nat 2 mod 2)) = Some row.
Proof.
  intros req st.
  split; [reflexivity|]. split; [reflexivity|]. split; [lia|].
  split; [reflexivity|]. split; [simpl; lia|]. split; [simpl; lia|].
  destruct (every_row_is_listed_on_its_page Sample.world req st 2 2
              eq_refl eq_refl ltac:(lia) eq_refl ltac:(simpl; lia)
              ltac:(simpl; lia))
    as (total & pages & rows & row & H1 & H2 & H3 & _).
  exists total, pages, rows, row. auto.
Defined.

(** X9: with a page that [parseInt] makes an integer from 1 to 2^53, a
    valid limit, a store that answers and a table of at most 2^53 rows,
    the response is 200 whatever the page, and its rows are empty exactly
    when the page lies beyond totalPages. *)
Theorem page_is_empty_iff_beyond_last
    (w : World) (req : Request) (st : State) (page limit : Z)
    (Hpage : parseInt (with_default (query_page req) 1) = Normal (Int page))
    (Hlimit : parseInt (with_default (query_limit req) 10) = Normal (Int limit))
    (Hp : 1 <= page <= 2 ^ 53) (Hl : 1 <= limit <= 100)
    (Hstore : findAndCountAll w = Normal tt)
    (Hsize : Z.of_nat (List.length (table st)) <= 2 ^ 53) :
  exists total pages rows,
    fst (logs w req st) = Sent (json 200 (LogsBody total page pages rows))
    /\ (rows = [] <-> pages < page).
Proof.
  rewrite (logs_valid_run w req st page limit Hpage Hlimit Hp Hl
             (or_introl Hsize)), Hstore.
  eexists _, _, _. split; [reflexivity|].
  pose proof (Math_ceil_div_spec (Z.of_nat (List.length (table st))) limit
                ltac:(lia)) as Hc.
  set (pages := Math_ceil_div (Z.of_nat (List.length (table st))) limit) in *.
  set (rows := firstn _ _).
  assert (Hlen : List.length rows
                 = Nat.min (Z.to_nat limit)
                     (List.length (table st) - Z.to_nat ((page - 1) * limit)))
    by (subst rows; now rewrite length_firstn, length_skipn, sort_length).
  assert (Hoff : 0 <= (page - 1) * limit) by nia.
  split.
  - intros E. rewrite E in Hlen. simpl in Hlen.
    assert (Z.of_nat (List.length (table st)) <= (page - 1) * limit) by lia.
    nia.
  - intros Hlt.
    assert (Z.of_nat (List.length (table st)) <= (page - 1) * limit) by nia.
    apply length_zero_iff_nil. lia.
Qed.

Lemma page_is_empty_iff_beyond_last_witness :
  let req := Sample.logs_request (Some "3") (Some "2") in
  let st := initial [Sample.row 1 5; Sample.row 2 7; Sample.row 3 6] in
  parseInt (with_default (query_page req) 1) = Normal (Int 3)
  /\ parseInt (with_default (query_limit req) 10) = Normal (Int 2)
  /\ 1 <= 3 <= 2 ^ 53 /\ 1 <= 2 <= 100
  /\ findAndCountAll Sample.world = Normal tt
  /\ Z.of_nat (List.length (table st)) <= 2 ^ 53
  /\ fst (logs Sample.world req st) = Sent (json 200 (LogsBody 3 3 2 []))
  /\ exists total pages rows,
       fst (logs Sample.world req st)
         = Sent (json 200 (LogsBody total 3 pages rows))
       /\ (rows = [] <-> pages < 3).
Proof.
  intros req st.
  split; [reflexivity|]. split; [reflexivity|]. split; [lia|]. split; [lia|].
  split; [reflexivity|]. split; [simpl; lia|]. split; [reflexivity|].
  exact (page_is_empty_iff_beyond_last Sample.world req st 3 2
           eq_refl eq_refl ltac:(lia) ltac:(lia) eq_refl ltac:(simpl; lia)).
Defined.

(** The head of a listing ordered most recent first is at least as
    recent as every row. *)
Lemma sorted_head_is_newest (h : Visit) (t : list Visit) :
  StronglySorted newer_or_same (h :: t) ->
  forall x, In x (h :: t) -> visited_at x <= visited_at h.
Proof.
  intros Hs x [<- | Hin]; [lia|].
  apply StronglySorted_inv in Hs. destruct Hs as (_ & Hall).
  exact (proj1 (Forall_forall _ _) Hall x Hin).
Qed.

(** X10: a capture followed by a listing.  When the capture stores its
    row and every row already in the table is older than the clock, the
    first row of page 1 of the listing taken next is the row just
    stored. *)
Theorem captured_visit_heads_the_listing
    (w : World) (capture listing : Request) (st : State)
    (row : Visit) (limit : Z)
    (Hstored : table (snd (client_info w capture st)) = (table st ++ [row])%list)
    (Holder : Forall (fun r => visited_at r < now w) (table st))
    (Hpage : parseInt (with_default (query_page listing) 1) = Normal (Int 1))
    (Hlimit : parseInt (with_default (query_limit listing) 10)
              = Normal (Int limit))
    (Hl : 1 <= limit <= 100)
    (Hstore : findAndCountAll w = Normal tt) :
  exists pages rest,
    fst (logs w listing (snd (client_info w capture st)))
    = Sent (json 200
        (LogsBody (Z.of_nat (List.length (table st)) + 1) 1 pages (row :: rest))).
Proof.
  destruct (client_info_run w capture st) as (_ & _ & Ht & _).
  rewrite Hstored in Ht. apply app_inv_head in Ht.
  assert (Hnow : visited_at row = now w).
  { assert (Hin : In row (stored w (normalize_ip (extracted_ip capture))
                            (or_string (user_agent_header capture) "Unknown") st))
      by (rewrite <- Ht; now left).
    now apply stored_rows in Hin. }
  rewrite (logs_valid_run w listing _ 1 limit Hpage Hlimit ltac:(lia) Hl
             ltac:(right; lia)), Hstore.
  rewrite Hstored. simpl fst.
  destruct (sort_recent_first (table st ++ [row])) as (Hperm & Hsorted).
  destruct (RecentSort.sort (table st ++ [row])) as [|h t] eqn:Es.
  { apply Permutation_length in Hperm. rewrite length_app in Hperm.
    simpl in Hperm. lia. }
  assert (Hh : h = row).
  { assert (Hin : In h (table st ++ [row]))
      by (eapply Permutation_in; [apply Permutation_sym, Hperm | now left]).
    apply in_app_or in Hin. destruct Hin as [Hold | [E | []]]; [|now symmetry].
    exfalso.
    pose proof (proj1 (Forall_forall _ _) Holder h Hold) as Hlt.
    assert (Hrow : In row (h :: t))
      by (eapply Permutation_in; [exact Hperm | apply in_or_app; right; now left]).
    pose proof (sorted_head_is_newest h t Hsorted row Hrow) as Hle.
    cbv beta in Hlt. lia. }
  subst h.
  replace (Z.to_nat ((1 - 1) * limit)) with 0%nat by lia.
  destruct (Z.to_nat limit) as [|n] eqn:En; [lia|].
  simpl. eexists _, _. repeat f_equal.
  rewrite length_app. simpl. lia.
Qed.

Lemma captured_visit_heads_the_listing_witness :
  let capture := Sample.request_from "203.0.113.7" in
  let listing := Sample.logs_request None None in
  let st := initial [Sample.row 1 5; Sample.row 2 7] in
  Forall (fun r => visited_at r < now Sample.world) (table st)
  /\ exists row pages rest,
       table (snd (client_info Sample.world capture st)) = (table st ++ [row])%list
       /\ fst (logs Sample.world listing (snd (client_info Sample.world capture st)))
          = Sent (json 200 (LogsBody 3 1 pages (row :: rest))).
Proof.
  intros capture listing st.
  assert (Hold : Forall (fun r => visited_at r < now Sample.world) (table st))
    by (repeat constructor).
  split; [exact Hold|].
  eexists _.
  destruct (captured_visit_heads_the_listing Sample.world capture listing st
              _ 10 eq_refl Hold eq_refl eq_refl ltac:(lia) eq_refl)
    as (pages & rest & H).
  exists pages, rest. split; [reflexivity | exact H].
Defined.

(* ================================================================= *)
(** ** Further properties of start-up and shutdown *)



(** With PORT=99999 the port is refused whatever the world: the routes
    are registered, nothing listens and the refusal is logged. *)
Example port_out_of_range_is_logged :
  let st := snd (startup (with_PORT Sample.world (Some "99999")) (initial [])) in
  routes st = all_routes
  /\ listening st = None
  /\ exit_code st = None
  /\ console_errors (effects st)
     = [["Failed to initialize application:";
         "options.port should be >= 0 and < 65536. Received type string ('99999')."]].
Proof. repeat split. Qed.

(** With a port that is in use the process ends with status 1. *)
Example port_in_use_ends_the_process :
  let w := with_app_listen Sample.world
             (fun _ => Unavailable "listen EADDRINUSE: address already in use :::8080") in
  let st := snd (startup w (initial [])) in
  routes st = all_routes
  /\ listening st = None
  /\ exit_code st = Some 1
  /\ console_errors (effects st) = [].
Proof. repeat split. Qed.

(** X12: outside production mode the secret store plays no part: the
    run of start-up is the same whatever [getSecret] would return. *)
Theorem secret_store_is_unused_outside_production
    (w : World) (st : State) (g : string -> completion string)
    (Hmode : production w = false) :
  startup (with_getSecret w g) st = startup w st.
Proof.
  unfold production in Hmode.
  unfold startup, startup_try. simpl. rewrite Hmode. reflexivity.
Qed.

Lemma secret_store_is_unused_outside_production_witness :
  let w := with_NODE_ENV Sample.world (Some "development") in
  production w = false
  /\ startup (with_getSecret w (fun _ => Throw "PERMISSION_DENIED")) (initial [])
     = startup w (initial [])
  /\ listening (snd (startup w (initial []))) = Some "8080".
Proof.
  intros w.
  split; [reflexivity|]. split; [|reflexivity].
  exact (secret_store_is_unused_outside_production w (initial [])
           (fun _ => Throw "PERMISSION_DENIED") eq_refl).
Defined.

(** X13: in production mode the connection string is the secret alone:
    the run of start-up is the same whatever [process.env.DATABASE_URL]
    held before. *)
Theorem environment_url_is_overwritten_in_production
    (w : World) (st : State) (u : option string)
    (Hmode : production w = true) :
  startup (with_DATABASE_URL w u) st = startup w st.
Proof.
  unfold production in Hmode.
  unfold startup, startup_try. simpl. rewrite Hmode. reflexivity.
Qed.

Lemma environment_url_is_overwritten_in_production_witness :
  production Sample.world = true
  /\ startup (with_DATABASE_URL Sample.world (Some "postgres://stale")) (initial [])
     = startup Sample.world (initial []).
Proof.
  split; [reflexivity|].
  exact (environment_url_is_overwritten_in_production Sample.world (initial [])
           (Some "postgres://stale") eq_refl).
Defined.

(** X14: on SIGTERM the handler stops the listener, then closes the
    store, and ends the process with status 0 when the store closed and
    status 1, after one [console.error], when closing threw; the table is
    not touched. *)
Theorem sigterm_closes_then_exits (w : World) (st : State) :
  let st' := snd (on_SIGTERM w st) in
  listening st' = None
  /\ table st' = table st
  /\ exit_code st'
     = Some (match close w with Normal _ => 0 | Throw _ => 1 end)
  /\ console_errors (effects st')
     = (console_errors (effects st)
        ++ match close w with
           | Normal _ => []
           | Throw message => [["Error closing database connection:"; message]]
           end)%list.
Proof.
  intros st'. subst st'.
  unfold on_SIGTERM, try_catch, bind_try, lift, bind, ret, console_log,
    console_error, emit, server_close, process_exit. simpl.
  destruct (close w); simpl;
    rewrite <- ?app_assoc, ?console_errors_app; simpl;
    rewrite ?app_nil_r; auto.
Qed.

(* ================================================================= *)
(** ** Properties of config/config.js *)

